(** * The gesture-driven particle ball: a shallow embedding and its properties

    The development follows the TypeScript sources:
    - [constants]                     the configuration constants,
    - [components/SceneController.ts] the particle engine and render loop,
    - [services/visionService.ts]     the wrapper around the gesture recognizer,
    - the application component [App]  the per-frame gesture-to-state mapper.

    Modelling conventions.
    - The geometry, the host calls and the application logic are modelled
      with a JavaScript [number] as a mathematical real: arithmetic is exact
      and a store into a [Float32Array] does not round.  Comparisons [<], [>]
      and [!==] are the decidable order and equality on [R].  There is no NaN
      and no infinity: a quotient by zero is the real [x / 0] (which is 0 in
      the Standard Library) where JavaScript yields an infinity or NaN; no
      statement below depends on the value of such a quotient.  Statements
      over this model hold up to floating-point rounding, and say so where
      they state an exact value.
    - A [Float32Array] is then a [list R] of fixed length; an indexed store is
      stdpp's list insert (out of range it does nothing, as for a typed array).
      The arrays of the controller all have [PARTICLE_COUNT * 3] elements
      ([sized]), so every read of the program is in range.
    - Where a statement is about the stored bits (the interpolation loop, the
      generated coordinates, the thresholds of the gesture classifier), the
      numeric kernels are modelled a second time over IEEE 754: a [number]
      is a binary64 value, an element of a [Float32Array] a binary32 value,
      and every operation rounds ([Ieee], [RoundedScene], [RoundedApp]).
    - Objects held by the class are record fields; the host (browser, gsap,
      three.js renderer) is a [World] that records every call made to it. *)

From Stdlib Require Import Reals Lra Lia List Sorted String ZArith QArith
  SpecFloat.
From stdpp Require Import base list.

Open Scope R_scope.

(** ** JavaScript numbers *)

Module Js.

Definition lt (a b : R) : bool := if Rlt_dec a b then true else false.
Definition gt (a b : R) : bool := lt b a.
(** [a !== b] on numbers. *)
Definition strict_ne (a b : R) : bool := if Req_dec_T a b then false else true.

(** Reading element [k] of a typed array.  Out of range JavaScript reads
    [undefined]; the model reads 0 there, and no such read occurs on arrays
    that are [sized]. *)
Definition get (a : list R) (k : nat) : R := default 0 (a !! k).

(** A value is truthy as a frame handle when it is a non-zero number. *)
Definition truthy (h : option nat) : bool :=
  match h with
  | Some (S _) => true
  | _ => false
  end.

End Js.

(** ** constants *)

Module Constants.

Record t := {
  PARTICLE_COUNT : nat;
  SPHERE_RADIUS : R;
  EXPLOSION_RADIUS : R;
  COLOR_CORE : Z;
  PINCH_THRESHOLD : R
}.

(** The values of the constants file. *)
Definition shipped : t := {|
  PARTICLE_COUNT := 5000;
  SPHERE_RADIUS := 1.5;
  EXPLOSION_RADIUS := 8.0;
  COLOR_CORE := 0x8b5cf6%Z;
  PINCH_THRESHOLD := 0.08
|}.

End Constants.

(** ** The part of three.js the scene controller calls *)

Module Three.

Record Vector3 := vec3 { vx : R; vy : R; vz : R }.

Definition sub (a b : Vector3) : Vector3 :=
  vec3 (vx a - vx b) (vy a - vy b) (vz a - vz b).

Definition add (a b : Vector3) : Vector3 :=
  vec3 (vx a + vx b) (vy a + vy b) (vz a + vz b).

Definition multiplyScalar (a : Vector3) (s : R) : Vector3 :=
  vec3 (vx a * s) (vy a * s) (vz a * s).

Definition length (a : Vector3) : R :=
  sqrt (vx a * vx a + vy a * vy a + vz a * vz a).

(** [divideScalar(s)] is [multiplyScalar(1 / s)]. *)
Definition divideScalar (a : Vector3) (s : R) : Vector3 :=
  multiplyScalar a (1 / s).

(** [normalize()] is [divideScalar(length() || 1)]. *)
Definition normalize (a : Vector3) : Vector3 :=
  divideScalar a (if Req_dec_T (length a) 0 then 1 else length a).

(** Column-major 4x4 matrix: [e0 .. e3] is the first column. *)
Record Matrix4 := mat4 {
  e0 : R; e1 : R; e2 : R; e3 : R;
  e4 : R; e5 : R; e6 : R; e7 : R;
  e8 : R; e9 : R; e10 : R; e11 : R;
  e12 : R; e13 : R; e14 : R; e15 : R
}.

Definition identity : Matrix4 :=
  mat4 1 0 0 0  0 1 0 0  0 0 1 0  0 0 0 1.

Definition zero : Matrix4 :=
  mat4 0 0 0 0  0 0 0 0  0 0 0 0  0 0 0 0.

(** The world matrix of an object with no rotation and unit scale. *)
Definition makeTranslation (p : Vector3) : Matrix4 :=
  mat4 1 0 0 0  0 1 0 0  0 0 1 0  (vx p) (vy p) (vz p) 1.

(** [Vector3.applyMatrix4]: the affine image followed by the perspective
    divide. *)
Definition applyMatrix4 (v : Vector3) (m : Matrix4) : Vector3 :=
  let x := vx v in
  let y := vy v in
  let z := vz v in
  let w := 1 / (e3 m * x + e7 m * y + e11 m * z + e15 m) in
  vec3 ((e0 m * x + e4 m * y + e8 m * z + e12 m) * w)
       ((e1 m * x + e5 m * y + e9 m * z + e13 m) * w)
       ((e2 m * x + e6 m * y + e10 m * z + e14 m) * w).

(** [Matrix4.makePerspective(left, right, top, bottom, near, far)]. *)
Definition makePerspective (left right top bottom near far : R) : Matrix4 :=
  let x := 2 * near / (right - left) in
  let y := 2 * near / (top - bottom) in
  let a := (right + left) / (right - left) in
  let b := (top + bottom) / (top - bottom) in
  let c := - (far + near) / (far - near) in
  let d := (- 2 * far * near) / (far - near) in
  mat4 x 0 0 0
       0 y 0 0
       a b c (-1)
       0 0 d 0.

(** [Matrix4.invert()]: adjugate over determinant, the zero matrix when the
    determinant is zero. *)
Definition invert (m : Matrix4) : Matrix4 :=
  let n11 := e0 m in let n21 := e1 m in let n31 := e2 m in let n41 := e3 m in
  let n12 := e4 m in let n22 := e5 m in let n32 := e6 m in let n42 := e7 m in
  let n13 := e8 m in let n23 := e9 m in let n33 := e10 m in let n43 := e11 m in
  let n14 := e12 m in let n24 := e13 m in let n34 := e14 m in let n44 := e15 m in
  let t11 := n23 * n34 * n42 - n24 * n33 * n42 + n24 * n32 * n43
             - n22 * n34 * n43 - n23 * n32 * n44 + n22 * n33 * n44 in
  let t12 := n14 * n33 * n42 - n13 * n34 * n42 - n14 * n32 * n43
             + n12 * n34 * n43 + n13 * n32 * n44 - n12 * n33 * n44 in
  let t13 := n13 * n24 * n42 - n14 * n23 * n42 + n14 * n22 * n43
             - n12 * n24 * n43 - n13 * n22 * n44 + n12 * n23 * n44 in
  let t14 := n14 * n23 * n32 - n13 * n24 * n32 - n14 * n22 * n33
             + n12 * n24 * n33 + n13 * n22 * n34 - n12 * n23 * n34 in
  let det := n11 * t11 + n21 * t12 + n31 * t13 + n41 * t14 in
  if Req_dec_T det 0 then zero else
  let detInv := 1 / det in
  mat4
    (t11 * detInv)
    ((n24 * n33 * n41 - n23 * n34 * n41 - n24 * n31 * n43
      + n21 * n34 * n43 + n23 * n31 * n44 - n21 * n33 * n44) * detInv)
    ((n22 * n34 * n41 - n24 * n32 * n41 + n24 * n31 * n42
      - n21 * n34 * n42 - n22 * n31 * n44 + n21 * n32 * n44) * detInv)
    ((n23 * n32 * n41 - n22 * n33 * n41 - n23 * n31 * n42
      + n21 * n33 * n42 + n22 * n31 * n43 - n21 * n32 * n43) * detInv)
    (t12 * detInv)
    ((n13 * n34 * n41 - n14 * n33 * n41 + n14 * n31 * n43
      - n11 * n34 * n43 - n13 * n31 * n44 + n11 * n33 * n44) * detInv)
    ((n14 * n32 * n41 - n12 * n34 * n41 - n14 * n31 * n42
      + n11 * n34 * n42 + n12 * n31 * n44 - n11 * n32 * n44) * detInv)
    ((n12 * n33 * n41 - n13 * n32 * n41 + n13 * n31 * n42
      - n11 * n33 * n42 - n12 * n31 * n43 + n11 * n32 * n43) * detInv)
    (t13 * detInv)
    ((n14 * n23 * n41 - n13 * n24 * n41 - n14 * n21 * n43
      + n11 * n24 * n43 + n13 * n21 * n44 - n11 * n23 * n44) * detInv)
    ((n12 * n24 * n41 - n14 * n22 * n41 + n14 * n21 * n42
      - n11 * n24 * n42 - n12 * n21 * n44 + n11 * n22 * n44) * detInv)
    ((n13 * n22 * n41 - n12 * n23 * n41 - n13 * n21 * n42
      + n11 * n23 * n42 + n12 * n21 * n43 - n11 * n22 * n43) * detInv)
    (t14 * detInv)
    ((n13 * n24 * n31 - n14 * n23 * n31 + n14 * n21 * n33
      - n11 * n24 * n33 - n13 * n21 * n34 + n11 * n23 * n34) * detInv)
    ((n14 * n22 * n31 - n12 * n24 * n31 - n14 * n21 * n32
      + n11 * n24 * n32 + n12 * n21 * n34 - n11 * n22 * n34) * detInv)
    ((n12 * n23 * n31 - n13 * n22 * n31 + n13 * n21 * n32
      - n11 * n23 * n32 - n12 * n21 * n33 + n11 * n22 * n33) * detInv).

(** Row-by-column product, used only to state that [invert] inverts. *)
Definition multiply (a b : Matrix4) : Matrix4 :=
  mat4
    (e0 a * e0 b + e4 a * e1 b + e8 a * e2 b + e12 a * e3 b)
    (e1 a * e0 b + e5 a * e1 b + e9 a * e2 b + e13 a * e3 b)
    (e2 a * e0 b + e6 a * e1 b + e10 a * e2 b + e14 a * e3 b)
    (e3 a * e0 b + e7 a * e1 b + e11 a * e2 b + e15 a * e3 b)
    (e0 a * e4 b + e4 a * e5 b + e8 a * e6 b + e12 a * e7 b)
    (e1 a * e4 b + e5 a * e5 b + e9 a * e6 b + e13 a * e7 b)
    (e2 a * e4 b + e6 a * e5 b + e10 a * e6 b + e14 a * e7 b)
    (e3 a * e4 b + e7 a * e5 b + e11 a * e6 b + e15 a * e7 b)
    (e0 a * e8 b + e4 a * e9 b + e8 a * e10 b + e12 a * e11 b)
    (e1 a * e8 b + e5 a * e9 b + e9 a * e10 b + e13 a * e11 b)
    (e2 a * e8 b + e6 a * e9 b + e10 a * e10 b + e14 a * e11 b)
    (e3 a * e8 b + e7 a * e9 b + e11 a * e10 b + e15 a * e11 b)
    (e0 a * e12 b + e4 a * e13 b + e8 a * e14 b + e12 a * e15 b)
    (e1 a * e12 b + e5 a * e13 b + e9 a * e14 b + e13 a * e15 b)
    (e2 a * e12 b + e6 a * e13 b + e10 a * e14 b + e14 a * e15 b)
    (e3 a * e12 b + e7 a * e13 b + e11 a * e14 b + e15 a * e15 b).

Definition determinant (m : Matrix4) : R :=
  let n11 := e0 m in let n21 := e1 m in let n31 := e2 m in let n41 := e3 m in
  let n12 := e4 m in let n22 := e5 m in let n32 := e6 m in let n42 := e7 m in
  let n13 := e8 m in let n23 := e9 m in let n33 := e10 m in let n43 := e11 m in
  let n14 := e12 m in let n24 := e13 m in let n34 := e14 m in let n44 := e15 m in
  n11 * (n23 * n34 * n42 - n24 * n33 * n42 + n24 * n32 * n43
         - n22 * n34 * n43 - n23 * n32 * n44 + n22 * n33 * n44)
  + n21 * (n14 * n33 * n42 - n13 * n34 * n42 - n14 * n32 * n43
           + n12 * n34 * n43 + n13 * n32 * n44 - n12 * n33 * n44)
  + n31 * (n13 * n24 * n42 - n14 * n23 * n42 + n14 * n22 * n43
           - n12 * n24 * n43 - n13 * n22 * n44 + n12 * n23 * n44)
  + n41 * (n14 * n23 * n32 - n13 * n24 * n32 - n14 * n22 * n33
           + n12 * n24 * n33 + n13 * n22 * n34 - n12 * n23 * n34).

Definition DEG2RAD : R := PI / 180.

(** A [PerspectiveCamera] with no parent, no rotation, unit scale and unit
    zoom.  [matrixWorld] is refreshed by the renderer, not by assignments to
    [position]. *)
Record PerspectiveCamera := {
  fov : R;
  aspect : R;
  near : R;
  far : R;
  position : Vector3;
  projectionMatrix : Matrix4;
  projectionMatrixInverse : Matrix4;
  matrixWorld : Matrix4
}.

Definition updateProjectionMatrix (c : PerspectiveCamera) : PerspectiveCamera :=
  let top := near c * tan (DEG2RAD * 0.5 * fov c) / 1 in
  let height := 2 * top in
  let width := aspect c * height in
  let left := - 0.5 * width in
  let pm := makePerspective left (left + width) top (top - height)
                            (near c) (far c) in
  {| fov := fov c; aspect := aspect c; near := near c; far := far c;
     position := position c;
     projectionMatrix := pm;
     projectionMatrixInverse := invert pm;
     matrixWorld := matrixWorld c |}.

(** [new PerspectiveCamera(fov, aspect, near, far)]. *)
Definition newPerspectiveCamera (fov aspect near far : R) : PerspectiveCamera :=
  updateProjectionMatrix
    {| fov := fov; aspect := aspect; near := near; far := far;
       position := vec3 0 0 0;
       projectionMatrix := identity;
       projectionMatrixInverse := identity;
       matrixWorld := identity |}.

Definition set_position (c : PerspectiveCamera) (p : Vector3) : PerspectiveCamera :=
  {| fov := fov c; aspect := aspect c; near := near c; far := far c;
     position := p;
     projectionMatrix := projectionMatrix c;
     projectionMatrixInverse := projectionMatrixInverse c;
     matrixWorld := matrixWorld c |}.

Definition set_aspect (c : PerspectiveCamera) (a : R) : PerspectiveCamera :=
  {| fov := fov c; aspect := a; near := near c; far := far c;
     position := position c;
     projectionMatrix := projectionMatrix c;
     projectionMatrixInverse := projectionMatrixInverse c;
     matrixWorld := matrixWorld c |}.

(** [updateMatrixWorld()], which the renderer calls on the camera before it
    draws. *)
Definition updateMatrixWorld (c : PerspectiveCamera) : PerspectiveCamera :=
  {| fov := fov c; aspect := aspect c; near := near c; far := far c;
     position := position c;
     projectionMatrix := projectionMatrix c;
     projectionMatrixInverse := projectionMatrixInverse c;
     matrixWorld := makeTranslation (position c) |}.

(** [Vector3.unproject(camera)]. *)
Definition unproject (v : Vector3) (c : PerspectiveCamera) : Vector3 :=
  applyMatrix4 (applyMatrix4 v (projectionMatrixInverse c)) (matrixWorld c).

End Three.

(** ** The host: browser, gsap and renderer calls, recorded in order *)

Module Host.

Inductive Callback := AnimateCallback | PredictWebcamCallback.

(** The objects that the program hands to [gsap.to]. *)
Inductive TweenTarget := ParticlesPosition | ExplosionFactor | BloomPass.

(** The second argument of [gsap.to]: animated properties with their end
    values, and the tween options ([ease] when one is given, [overwrite] when
    [overwrite: true] is passed). *)
Record TweenVars := {
  props : list (string * R);
  duration : R;
  ease : option string;
  overwrite : bool
}.

Inductive Effect :=
| RequestAnimationFrame (cb : Callback) (handle : nat)
| CancelAnimationFrame (handle : nat)
| AddEventListener (event : string)
| RemoveEventListener (event : string)
| RendererSetSize (width height : R)
| ComposerSetSize (width height : R)
| RendererDispose
| ComposerRender
| GsapTo (target : TweenTarget) (vars : TweenVars)
| RecognizeForVideo (currentTime now : R)
| GetUserMedia
| VideoSetSrcObject (stream : nat)
| VideoAddEventListener (event : string)
| ConsoleError (message : string).

Record World := {
  innerWidth : R;
  innerHeight : R;
  now : R;                 (* what [Date.now()] returns *)
  lastHandle : nat;        (* the last handle [requestAnimationFrame] gave out *)
  random : nat -> R;       (* the values [Math.random()] returns, in order *)
  randomCalls : nat;       (* how many of them have been consumed *)
  effects : list Effect    (* the calls made so far, oldest first *)
}.

Definition emit (e : Effect) (w : World) : World :=
  {| innerWidth := innerWidth w; innerHeight := innerHeight w; now := now w;
     lastHandle := lastHandle w; random := random w;
     randomCalls := randomCalls w;
     effects := effects w ++ [e] |}.

(** Handles are positive and never repeat. *)
Definition requestAnimationFrame (cb : Callback) (w : World) : nat * World :=
  let h := S (lastHandle w) in
  (h, {| innerWidth := innerWidth w; innerHeight := innerHeight w; now := now w;
         lastHandle := h; random := random w;
         randomCalls := randomCalls w;
         effects := effects w ++ [RequestAnimationFrame cb h] |}).

Definition Math_random (w : World) : R * World :=
  (random w (randomCalls w),
   {| innerWidth := innerWidth w; innerHeight := innerHeight w; now := now w;
      lastHandle := lastHandle w; random := random w;
      randomCalls := S (randomCalls w);
      effects := effects w |}).

(** The sampler's contract: every value lies in [0, 1). *)
Definition random_in_unit (w : World) : Prop :=
  forall k : nat, 0 <= random w k < 1.

End Host.

(** ** components/SceneController.ts *)

Module SceneController.

Import Constants Three Host.

(** The [THREE.Points] object: its transform and its material colour.  Its
    position attribute wraps the controller's [currentPositions] array
    itself, so the attribute's array is not a separate field. *)
Record Points := {
  points_position : Vector3;
  rotation_y : R;
  rotation_z : R;
  color : Z;
  needsUpdate : bool
}.

Record t := {
  camera : PerspectiveCamera;
  bloomStrength : R;
  particles : option Points;
  spherePositions : list R;
  explosionPositions : list R;
  currentPositions : list R;
  explosionFactor : R;          (* [explosionFactor.value], driven by gsap *)
  frameId : option nat
}.

Definition set_camera (s : t) (c : PerspectiveCamera) : t :=
  {| camera := c; bloomStrength := bloomStrength s; particles := particles s;
     spherePositions := spherePositions s;
     explosionPositions := explosionPositions s;
     currentPositions := currentPositions s;
     explosionFactor := explosionFactor s; frameId := frameId s |}.

Definition set_frameId (s : t) (h : option nat) : t :=
  {| camera := camera s; bloomStrength := bloomStrength s;
     particles := particles s;
     spherePositions := spherePositions s;
     explosionPositions := explosionPositions s;
     currentPositions := currentPositions s;
     explosionFactor := explosionFactor s; frameId := h |}.

Definition set_explosionFactor (s : t) (f : R) : t :=
  {| camera := camera s; bloomStrength := bloomStrength s;
     particles := particles s;
     spherePositions := spherePositions s;
     explosionPositions := explosionPositions s;
     currentPositions := currentPositions s;
     explosionFactor := f; frameId := frameId s |}.

(** Three consecutive stores [a[i3] = x; a[i3 + 1] = y; a[i3 + 2] = z]. *)
Definition store3 (a : list R) (i3 : nat) (x y z : R) : list R :=
  <[(i3 + 2)%nat := z]> (<[(i3 + 1)%nat := y]> (<[i3 := x]> a)).

(** One iteration of the generation loop of [initParticles]. *)
Definition initParticles_body (cfg : Constants.t) (acc : World * t) (i : nat)
  : World * t :=
  let '(w, s) := acc in
  let i3 := (i * 3)%nat in
  let phi := acos (-1 + (2 * INR i) / INR (PARTICLE_COUNT cfg)) in
  let theta := sqrt (INR (PARTICLE_COUNT cfg) * PI) * phi in
  let sx := SPHERE_RADIUS cfg * cos theta * sin phi in
  let sy := SPHERE_RADIUS cfg * sin theta * sin phi in
  let sz := SPHERE_RADIUS cfg * cos phi in
  let '(u, w) := Math_random w in
  let '(v, w) := Math_random w in
  let thetaR := 2 * PI * u in
  let phiR := acos (2 * v - 1) in
  let '(q, w) := Math_random w in
  let r := SPHERE_RADIUS cfg + q * (EXPLOSION_RADIUS cfg - SPHERE_RADIUS cfg) in
  (w,
   {| camera := camera s; bloomStrength := bloomStrength s;
      particles := particles s;
      spherePositions := store3 (spherePositions s) i3 sx sy sz;
      explosionPositions :=
        store3 (explosionPositions s) i3
               (r * sin phiR * cos thetaR)
               (r * sin phiR * sin thetaR)
               (r * cos phiR);
      currentPositions := store3 (currentPositions s) i3 sx sy sz;
      explosionFactor := explosionFactor s; frameId := frameId s |}).

Definition initParticles (cfg : Constants.t) (w : World) (s : t) : World * t :=
  let '(w, s) :=
    fold_left (initParticles_body cfg) (seq 0 (PARTICLE_COUNT cfg)) (w, s) in
  (w,
   {| camera := camera s; bloomStrength := bloomStrength s;
      particles := Some {| points_position := vec3 0 0 0;
                           rotation_y := 0; rotation_z := 0;
                           color := COLOR_CORE cfg;
                           needsUpdate := false |};
      spherePositions := spherePositions s;
      explosionPositions := explosionPositions s;
      currentPositions := currentPositions s;
      explosionFactor := explosionFactor s; frameId := frameId s |}).

Definition updateHandPosition (w : World) (s : t) (x y : R) : World * t :=
  let vec := vec3 ((x * 2) - 1) (- (y * 2) + 1) 0.5 in
  let vec := unproject vec (camera s) in
  let vec := normalize (sub vec (position (camera s))) in
  let distance := - vz (position (camera s)) / vz vec in
  let pos := add (position (camera s)) (multiplyScalar vec distance) in
  match particles s with
  | Some _ =>
      (emit (GsapTo ParticlesPosition
               {| props := [("x"%string, vx pos); ("y"%string, vy pos);
                            ("z"%string, vz pos)];
                  duration := 0.2; ease := None; overwrite := true |}) w, s)
  | None => (w, s)
  end.

Definition triggerExplosion (w : World) (s : t) : World * t :=
  let w := emit (GsapTo ExplosionFactor
                   {| props := [("value"%string, 1)]; duration := 0.8;
                      ease := Some "power2.out"%string;
                      overwrite := false |}) w in
  let w := emit (GsapTo BloomPass
                   {| props := [("strength"%string, 2)]; duration := 0.8;
                      ease := Some "power2.out"%string;
                      overwrite := false |}) w in
  (w, s).

Definition triggerAssembly (w : World) (s : t) : World * t :=
  let w := emit (GsapTo ExplosionFactor
                   {| props := [("value"%string, 0)]; duration := 0.6;
                      ease := Some "power2.inOut"%string;
                      overwrite := false |}) w in
  let w := emit (GsapTo BloomPass
                   {| props := [("strength"%string, 1)]; duration := 0.6;
                      ease := Some "power2.inOut"%string;
                      overwrite := false |}) w in
  (w, s).

Definition handleResize (w : World) (s : t) : World * t :=
  let cam := updateProjectionMatrix
               (set_aspect (camera s) (innerWidth w / innerHeight w)) in
  let w := emit (RendererSetSize (innerWidth w) (innerHeight w)) w in
  let w := emit (ComposerSetSize (innerWidth w) (innerHeight w)) w in
  (w, set_camera s cam).

(** One iteration of the interpolation loop of [animate], writing into
    [positions]. *)
Definition animate_body (s : t) (factor : R) (positions : list R) (i : nat)
  : list R :=
  let i3 := (i * 3)%nat in
  store3 positions i3
    (Js.get (spherePositions s) i3 * (1 - factor)
     + Js.get (explosionPositions s) i3 * factor)
    (Js.get (spherePositions s) (i3 + 1) * (1 - factor)
     + Js.get (explosionPositions s) (i3 + 1) * factor)
    (Js.get (spherePositions s) (i3 + 2) * (1 - factor)
     + Js.get (explosionPositions s) (i3 + 2) * factor).

(** The colour the material gets in a frame. *)
Definition frame_color (factor : R) : Z :=
  if Js.gt factor 0.5 then 0xe879f9%Z else 0x8b5cf6%Z.

(** [composer.render()]: the render pass refreshes the camera's world matrix
    and draws. *)
Definition composer_render (w : World) (s : t) : World * t :=
  (emit ComposerRender w, set_camera s (updateMatrixWorld (camera s))).

Definition animate (cfg : Constants.t) (w : World) (s : t) : World * t :=
  let '(h, w) := requestAnimationFrame AnimateCallback w in
  let s := set_frameId s (Some h) in
  let s :=
    match particles s with
    | Some p =>
        let factor := explosionFactor s in
        let positions :=
          fold_left (animate_body s factor) (seq 0 (PARTICLE_COUNT cfg))
                    (currentPositions s) in
        {| camera := camera s; bloomStrength := bloomStrength s;
           particles := Some {| points_position := points_position p;
                                rotation_y := rotation_y p + 0.002;
                                rotation_z := rotation_z p + 0.001;
                                color := frame_color factor;
                                needsUpdate := true |};
           spherePositions := spherePositions s;
           explosionPositions := explosionPositions s;
           currentPositions := positions;
           explosionFactor := explosionFactor s; frameId := frameId s |}
    | None => s
    end in
  composer_render w s.

Definition cleanup (w : World) (s : t) : World * t :=
  let w := if Js.truthy (frameId s)
           then emit (CancelAnimationFrame (default 0%nat (frameId s))) w
           else w in
  let w := emit (RemoveEventListener "resize") w in
  let w := emit RendererDispose w in
  (w, s).

(** [new SceneController(canvas)].  The renderer, render target, bloom pass
    and lights are set up by calls that neither read nor write the fields
    modelled here; of them only the first [setSize] is recorded. *)
Definition new (cfg : Constants.t) (w : World) : World * t :=
  let cam := newPerspectiveCamera 75 (innerWidth w / innerHeight w) 0.1 100 in
  let cam := set_position cam (vec3 (vx (position cam)) (vy (position cam)) 8) in
  let w := emit (RendererSetSize (innerWidth w) (innerHeight w)) w in
  let s :=
    {| camera := cam; bloomStrength := 1; particles := None;
       spherePositions := replicate (PARTICLE_COUNT cfg * 3) 0;
       explosionPositions := replicate (PARTICLE_COUNT cfg * 3) 0;
       currentPositions := replicate (PARTICLE_COUNT cfg * 3) 0;
       explosionFactor := 0; frameId := None |} in
  let '(w, s) := initParticles cfg w s in
  let w := emit (AddEventListener "resize") w in
  animate cfg w s.

(** The invariant the constructor sets up: the three arrays hold
    [PARTICLE_COUNT] points each. *)
Definition sized (cfg : Constants.t) (s : t) : Prop :=
  Datatypes.length (spherePositions s) = (PARTICLE_COUNT cfg * 3)%nat /\
  Datatypes.length (explosionPositions s) = (PARTICLE_COUNT cfg * 3)%nat /\
  Datatypes.length (currentPositions s) = (PARTICLE_COUNT cfg * 3)%nat.

(** Point [i] of a flat coordinate array. *)
Definition point (a : list R) (i : nat) : Vector3 :=
  vec3 (Js.get a (i * 3)) (Js.get a (i * 3 + 1)) (Js.get a (i * 3 + 2)).

End SceneController.

(** ** services/visionService.ts *)

Module VisionService.

Import Host.

Record NormalizedLandmark := { x : R; y : R; z : R }.

Record Category := { categoryName : string; score : R }.

(** What the recognizer returns: one landmark list and one category list
    per detected hand. *)
Record GestureRecognizerResult := {
  landmarks : list (list NormalizedLandmark);
  gestures : list (list Category)
}.

(** The video element: the timestamp of the frame on display and the frame
    itself, which only the recognizer looks at. *)
Record HTMLVideoElement := { currentTime : R; frame : nat }.

(** The recognizer is opaque: any function of the frame and the call time. *)
Record GestureRecognizer := {
  recognizeForVideo : HTMLVideoElement -> R -> GestureRecognizerResult
}.

Record t := {
  gestureRecognizer : option GestureRecognizer;
  lastVideoTime : R
}.

Definition initial : t := {| gestureRecognizer := None; lastVideoTime := -1 |}.

(** [initialize()], given the recognizer that the asynchronous creation
    yields. *)
Definition initialize (created : GestureRecognizer) (s : t) : t :=
  match gestureRecognizer s with
  | Some _ => s
  | None => {| gestureRecognizer := Some created;
               lastVideoTime := lastVideoTime s |}
  end.

(** The two moments of a call of [initialize()] as an [async] function
    runs: the guard is evaluated when the call is made, the assignment is
    made when the creation that the call awaits has resolved. *)
Definition initialize_begins (s : t) : bool :=
  match gestureRecognizer s with
  | Some _ => false
  | None => true
  end.

Definition initialize_resolves (created : GestureRecognizer) (s : t) : t :=
  {| gestureRecognizer := Some created; lastVideoTime := lastVideoTime s |}.

Definition detect (w : World) (s : t) (video : HTMLVideoElement)
  : World * t * option GestureRecognizerResult :=
  match gestureRecognizer s with
  | None => (w, s, None)
  | Some rec =>
      if Js.strict_ne (currentTime video) (lastVideoTime s) then
        let s := {| gestureRecognizer := gestureRecognizer s;
                    lastVideoTime := currentTime video |} in
        let results := recognizeForVideo rec video (now w) in
        (emit (RecognizeForVideo (currentTime video) (now w)) w, s,
         Some results)
      else (w, s, None)
  end.

End VisionService.

(** ** The application component [App] (with types.ts) *)

Module App.

Import Constants Host VisionService.

Inductive AppState := LOADING | READY_TO_START | RUNNING | ERROR.

Inductive ParticleState := SPHERE | EXPLODED.

Definition ParticleState_eqb (a b : ParticleState) : bool :=
  match a, b with
  | SPHERE, SPHERE | EXPLODED, EXPLODED => true
  | _, _ => false
  end.

Record t := {
  appState : AppState;
  particleState : ParticleState;       (* React state *)
  particleStateRef : ParticleState;    (* the ref read inside the loop *)
  debugText : string;
  videoRef : option HTMLVideoElement;
  canvasRef : bool;
  sceneControllerRef : option SceneController.t;
  requestRef : option nat;
  visionService : VisionService.t      (* the module-level singleton *)
}.

Definition initial : t := {|
  appState := LOADING;
  particleState := SPHERE;
  particleStateRef := SPHERE;
  debugText := "";
  videoRef := None;
  canvasRef := false;
  sceneControllerRef := None;
  requestRef := None;
  visionService := VisionService.initial
|}.

Definition set_visionService (a : t) (v : VisionService.t) : t :=
  {| appState := appState a; particleState := particleState a;
     particleStateRef := particleStateRef a; debugText := debugText a;
     videoRef := videoRef a; canvasRef := canvasRef a;
     sceneControllerRef := sceneControllerRef a;
     requestRef := requestRef a; visionService := v |}.

Definition set_sceneController (a : t) (sc : SceneController.t) : t :=
  {| appState := appState a; particleState := particleState a;
     particleStateRef := particleStateRef a; debugText := debugText a;
     videoRef := videoRef a; canvasRef := canvasRef a;
     sceneControllerRef := Some sc;
     requestRef := requestRef a; visionService := visionService a |}.

Definition setDebugText (a : t) (text : string) : t :=
  {| appState := appState a; particleState := particleState a;
     particleStateRef := particleStateRef a; debugText := text;
     videoRef := videoRef a; canvasRef := canvasRef a;
     sceneControllerRef := sceneControllerRef a;
     requestRef := requestRef a; visionService := visionService a |}.

Definition setAppState (a : t) (st : AppState) : t :=
  {| appState := st; particleState := particleState a;
     particleStateRef := particleStateRef a; debugText := debugText a;
     videoRef := videoRef a; canvasRef := canvasRef a;
     sceneControllerRef := sceneControllerRef a;
     requestRef := requestRef a; visionService := visionService a |}.

(** [particleStateRef.current = p; setParticleState(p)]. *)
Definition setParticleState (a : t) (p : ParticleState) : t :=
  {| appState := appState a; particleState := p;
     particleStateRef := p; debugText := debugText a;
     videoRef := videoRef a; canvasRef := canvasRef a;
     sceneControllerRef := sceneControllerRef a;
     requestRef := requestRef a; visionService := visionService a |}.

Definition set_requestRef (a : t) (h : option nat) : t :=
  {| appState := appState a; particleState := particleState a;
     particleStateRef := particleStateRef a; debugText := debugText a;
     videoRef := videoRef a; canvasRef := canvasRef a;
     sceneControllerRef := sceneControllerRef a;
     requestRef := h; visionService := visionService a |}.

(** The video element shows a new frame (done by the browser). *)
Definition set_video (a : t) (v : HTMLVideoElement) : t :=
  {| appState := appState a; particleState := particleState a;
     particleStateRef := particleStateRef a; debugText := debugText a;
     videoRef := Some v; canvasRef := canvasRef a;
     sceneControllerRef := sceneControllerRef a;
     requestRef := requestRef a; visionService := visionService a |}.

(** How a call of [predictWebcam] ends: it returns, or a property read on
    [undefined] throws and the rest of the body is skipped. *)
Inductive Outcome :=
| Returned (w : World) (a : t)
| Threw (w : World) (a : t).

Definition world_of (o : Outcome) : World :=
  match o with Returned w _ | Threw w _ => w end.

Definition app_of (o : Outcome) : t :=
  match o with Returned _ a | Threw _ a => a end.

(** [Math.sqrt(Math.pow(thumbTip.x - indexTip.x, 2)
               + Math.pow(thumbTip.y - indexTip.y, 2))]. *)
Definition pinch_distance (thumbTip indexTip : NormalizedLandmark) : R :=
  sqrt ((x thumbTip - x indexTip) ^ 2 + (y thumbTip - y indexTip) ^ 2).

(** [results.gestures.length > 0 ? results.gestures[0] : []]. *)
Definition detectedGestures (results : GestureRecognizerResult)
  : list Category :=
  match gestures results with
  | g :: _ => g
  | [] => []
  end.

Definition isOpenPalm (gs : list Category) : bool :=
  existsb (fun g => String.eqb (categoryName g) "Open_Palm"
                    && Js.gt (score g) 0.5) gs.

(** The gesture branch of [predictWebcam], entered with the two fingertips. *)
Definition gesture_logic (cfg : Constants.t) (w : World) (a : t)
    (sc : SceneController.t) (results : GestureRecognizerResult)
    (thumbTip indexTip : NormalizedLandmark) : World * t :=
  let distance := pinch_distance thumbTip indexTip in
  let openPalm := isOpenPalm (detectedGestures results) in
  if Js.lt distance (PINCH_THRESHOLD cfg) then
    let '(w, a) :=
      if negb (ParticleState_eqb (particleStateRef a) SPHERE) then
        let a := setParticleState a SPHERE in
        let '(w, sc) := SceneController.triggerAssembly w sc in
        (w, set_sceneController a sc)
      else (w, a) in
    (w, setDebugText a "Gesture: Pinch (Create)")
  else if openPalm || Js.gt distance 0.2 then
    let '(w, a) :=
      if negb (ParticleState_eqb (particleStateRef a) EXPLODED) then
        let a := setParticleState a EXPLODED in
        let '(w, sc) := SceneController.triggerExplosion w sc in
        (w, set_sceneController a sc)
      else (w, a) in
    (w, setDebugText a "Gesture: Open Palm (Explode)")
  else
    (w, setDebugText a "Gesture: Tracking...").

Definition schedule (w : World) (a : t) : Outcome :=
  let '(h, w) := requestAnimationFrame PredictWebcamCallback w in
  Returned w (set_requestRef a (Some h)).

Definition predictWebcam (cfg : Constants.t) (w : World) (a : t) : Outcome :=
  match videoRef a, sceneControllerRef a with
  | Some video, Some sc =>
      let '(w, vs, results) := detect w (visionService a) video in
      let a := set_visionService a vs in
      match results with
      | Some (Build_GestureRecognizerResult (hand :: _) _ as results) =>
          match hand !! 9%nat with
          | None => Threw w a
          | Some center =>
              let '(w, sc) :=
                SceneController.updateHandPosition w sc (x center) (y center) in
              let a := set_sceneController a sc in
              match hand !! 4%nat, hand !! 8%nat with
              | Some thumbTip, Some indexTip =>
                  let '(w, a) :=
                    gesture_logic cfg w a sc results thumbTip indexTip in
                  schedule w a
              | _, _ => Threw w a
              end
          end
      | _ => schedule w (setDebugText a "No Hand Detected")
      end
  | _, _ => Returned w a
  end.

(** [handleStart], given what [getUserMedia] resolves to: a media stream, or
    [None] when access is denied.  The video element is the one [videoRef]
    holds, if it is mounted. *)
Definition handleStart (cfg : Constants.t) (w : World) (a : t)
    (stream : option nat) : World * t :=
  let a := setAppState a RUNNING in
  let '(w, a) :=
    if canvasRef a then
      let '(w, sc) := SceneController.new cfg w in
      (w, set_sceneController a sc)
    else (w, a) in
  let w := emit GetUserMedia w in
  match stream with
  | Some media =>
      match videoRef a with
      | Some _ =>
          let w := emit (VideoSetSrcObject media) w in
          let w := emit (VideoAddEventListener "loadeddata") w in
          (w, a)
      | None => (w, a)
      end
  | None =>
      let w := emit (ConsoleError "Camera access denied") w in
      (w, setAppState a ERROR)
  end.

(** The unmount effect. *)
Definition unmount (w : World) (a : t) : World * t :=
  let w := if Js.truthy (requestRef a)
           then emit (CancelAnimationFrame (default 0%nat (requestRef a))) w
           else w in
  match sceneControllerRef a with
  | Some sc =>
      let '(w, sc) := SceneController.cleanup w sc in
      (w, set_sceneController a sc)
  | None => (w, a)
  end.

End App.

(** ** Closed forms and derived notions used in the statements *)

Module Derived.

Import Constants Three Host SceneController.

(** The value the loop writes at flat index [k]. *)
Definition lerp (s : t) (f : R) (k : nat) : R :=
  Js.get (spherePositions s) k * (1 - f) + Js.get (explosionPositions s) k * f.

Definition lerp_loop (s : t) (f : R) (n : nat) (positions : list R) : list R :=
  fold_left (animate_body s f) (seq 0 n) positions.

(** Closed forms of what iteration [i] stores. *)
Definition sphere_point (cfg : Constants.t) (i : nat) : Vector3 :=
  let phi := acos (-1 + (2 * INR i) / INR (PARTICLE_COUNT cfg)) in
  let theta := sqrt (INR (PARTICLE_COUNT cfg) * PI) * phi in
  vec3 (SPHERE_RADIUS cfg * cos theta * sin phi)
       (SPHERE_RADIUS cfg * sin theta * sin phi)
       (SPHERE_RADIUS cfg * cos phi).

(** The radius drawn for particle [i] when [base] samples were consumed
    before the loop: the third of its three samples scales it. *)
Definition explosion_radius (cfg : Constants.t) (rnd : nat -> R) (base i : nat)
  : R :=
  SPHERE_RADIUS cfg
  + rnd (base + i * 3 + 2)%nat * (EXPLOSION_RADIUS cfg - SPHERE_RADIUS cfg).

Definition explosion_point (cfg : Constants.t) (rnd : nat -> R) (base i : nat)
  : Vector3 :=
  let thetaR := 2 * PI * rnd (base + i * 3)%nat in
  let phiR := acos (2 * rnd (base + i * 3 + 1)%nat - 1) in
  let r := explosion_radius cfg rnd base i in
  vec3 (r * sin phiR * cos thetaR) (r * sin phiR * sin thetaR) (r * cos phiR).

Definition generation_loop (cfg : Constants.t) (n : nat) (acc : World * t)
  : World * t :=
  fold_left (initParticles_body cfg) (seq 0 n) acc.

(** [Math.tan(DEG2RAD * 0.5 * fov)] for the field of view of the program. *)
Definition tanHalfFov : R := tan (DEG2RAD * 0.5 * 75).

(** The camera as the constructor leaves it once a frame was rendered:
    75 degrees, planes 0.1 and 100, at (0, 0, 8), for an aspect ratio [a]. *)
Definition camera_of (a : R) : PerspectiveCamera :=
  updateMatrixWorld
    (set_position (newPerspectiveCamera 75 a 0.1 100) (vec3 0 0 8)).

(** The distance in front of the camera at which clip depth 0.5 lies. *)
Definition viewDepth : R := 2 * 100 * 0.1 / ((100 + 0.1) - 0.5 * (100 - 0.1)).

(** The normalized ray that [updateHandPosition] casts for input (x, y). *)
Definition ray_direction (c : PerspectiveCamera) (x y : R) : Vector3 :=
  normalize (sub (unproject (vec3 ((x * 2) - 1) (- (y * 2) + 1) 0.5) c)
                 (position c)).

(** The point that [updateHandPosition] sends the cloud to. *)
Definition mapped_point (c : PerspectiveCamera) (x y : R) : Vector3 :=
  let ray := ray_direction c x y in
  let t := - vz (position c) / vz ray in
  add (position c) (multiplyScalar ray t).

Definition position_tween (pos : Vector3) : Effect :=
  GsapTo ParticlesPosition
    {| props := [("x"%string, vx pos); ("y"%string, vy pos);
                 ("z"%string, vz pos)];
       duration := 0.2; ease := None; overwrite := true |}.

End Derived.

(** ** What an observer of the host sees *)

Module Observed.

Import Constants Host VisionService App.

(** The video timestamps on which the recognizer was run, oldest first. *)
Fixpoint processed (es : list Effect) : list R :=
  match es with
  | [] => []
  | RecognizeForVideo time _ :: es => time :: processed es
  | _ :: es => processed es
  end.

(** Polling [detect] on the frames the video element shows at successive
    polls. *)
Fixpoint detect_all (w : World) (s : VisionService.t)
    (videos : list HTMLVideoElement) : World * VisionService.t :=
  match videos with
  | [] => (w, s)
  | video :: videos =>
      let '(w, s, _) := detect w s video in
      detect_all w s videos
  end.

(** What holds between polls: the processed timestamps increase strictly and
    none exceeds the timestamp remembered by the wrapper. *)
Definition polled (w : World) (s : VisionService.t) : Prop :=
  StronglySorted Rlt (processed (effects w)) /\
  Forall (fun u => u <= lastVideoTime s) (processed (effects w)).

(** The morph targets requested from gsap for the explosion factor, oldest
    first: one entry per call of [triggerAssembly] or [triggerExplosion]. *)
Fixpoint morph_requests (es : list Effect) : list (list (string * R)) :=
  match es with
  | [] => []
  | GsapTo ExplosionFactor vars :: es => props vars :: morph_requests es
  | _ :: es => morph_requests es
  end.

(** The request that moves the morph towards a particle state. *)
Definition request_for (p : ParticleState) : list (string * R) :=
  match p with
  | SPHERE => [("value"%string, 0)]
  | EXPLODED => [("value"%string, 1)]
  end.

(** The calls by which [cleanup] releases what the controller holds. *)
Definition release_calls (s : SceneController.t) : list Effect :=
  (if Js.truthy (SceneController.frameId s)
   then [CancelAnimationFrame (default 0%nat (SceneController.frameId s))]
   else [])
  ++ [RemoveEventListener "resize"; RendererDispose].


(** A call of [predictWebcam] in which the detector reports a hand with the
    given fingertips. *)
Definition hand_present (w : World) (a : App.t)
    (results : GestureRecognizerResult)
    (thumbTip indexTip : NormalizedLandmark) : Prop :=
  exists video sc hand others center,
    videoRef a = Some video /\
    sceneControllerRef a = Some sc /\
    snd (detect w (visionService a) video) = Some results /\
    landmarks results = hand :: others /\
    hand !! 9%nat = Some center /\
    hand !! 4%nat = Some thumbTip /\
    hand !! 8%nat = Some indexTip.

(** Two detector results that differ at most in the depth of landmarks. *)
Definition xy (l : NormalizedLandmark) : R * R := (x l, y l).

Definition same_xy (r1 r2 : GestureRecognizerResult) : Prop :=
  map (map xy) (landmarks r1) = map (map xy) (landmarks r2) /\
  gestures r1 = gestures r2.

Definition with_recognizer (a : App.t) (rec : GestureRecognizer) : App.t :=
  set_visionService a
    {| gestureRecognizer := Some rec;
       lastVideoTime := lastVideoTime (visionService a) |}.

(** What the detector result asks for: a target state, or nothing in the
    intermediate zone. *)
Definition classified (cfg : Constants.t) (results : GestureRecognizerResult)
    (thumbTip indexTip : NormalizedLandmark) : option ParticleState :=
  let distance := pinch_distance thumbTip indexTip in
  if Js.lt distance (PINCH_THRESHOLD cfg) then Some SPHERE
  else if isOpenPalm (detectedGestures results) || Js.gt distance 0.2
       then Some EXPLODED
       else None.

(** Calling [predictWebcam] once for each frame the video element shows, in
    order; a throw ends the loop. *)
Fixpoint play (cfg : Constants.t) (w : World) (a : App.t)
    (videos : list HTMLVideoElement) : World * App.t :=
  match videos with
  | [] => (w, a)
  | video :: videos =>
      match predictWebcam cfg w (set_video a video) with
      | Returned w a => play cfg w a videos
      | Threw w a => (w, a)
      end
  end.


(** Everything of the application state but the detector singleton. *)
Definition visible (a : App.t) :=
  (appState a, particleState a, particleStateRef a, debugText a,
   videoRef a, canvasRef a, sceneControllerRef a, requestRef a).

Definition returned (o : Outcome) : bool :=
  match o with Returned _ _ => true | Threw _ _ => false end.

End Observed.

(** ** Concrete objects used to exercise the theorems *)

Module Demo.

Import Constants Three Host SceneController Derived.

Definition world : World := {|
  innerWidth := 1280; innerHeight := 720; now := 0;
  lastHandle := 0%nat; random := fun _ => 0.5; randomCalls := 0%nat;
  effects := []
|}.

(** Two particles instead of five thousand. *)
Definition two : Constants.t := {|
  PARTICLE_COUNT := 2; SPHERE_RADIUS := 1.5; EXPLOSION_RADIUS := 8.0;
  COLOR_CORE := 0x8b5cf6%Z; PINCH_THRESHOLD := 0.08
|}.

Definition cloud : Points := {|
  points_position := vec3 0 0 0; rotation_y := 0; rotation_z := 0;
  color := 0x8b5cf6%Z; needsUpdate := false
|}.

(** A controller half way through a morph. *)
Definition halfway : SceneController.t := {|
  camera := camera_of (1280 / 720);
  bloomStrength := 1;
  particles := Some cloud;
  spherePositions := [1; 2; 3; 4; 5; 6];
  explosionPositions := [3; 4; 5; 6; 7; 8];
  currentPositions := [0; 0; 0; 0; 0; 0];
  explosionFactor := 0.5;
  frameId := Some 1%nat
|}.


End Demo.

Module DemoApp.

Import Host VisionService App.

Definition landmark (px py pz : R) : NormalizedLandmark :=
  {| x := px; y := py; z := pz |}.

(** A hand of 21 landmarks with the given fingertips at indices 4 and 8. *)
Definition hand_of (thumbTip indexTip : NormalizedLandmark)
  : list NormalizedLandmark :=
  replicate 4 (landmark 0.5 0.5 0) ++ [thumbTip]
  ++ replicate 3 (landmark 0.5 0.5 0) ++ [indexTip; landmark 0.5 0.5 0]
  ++ replicate 11 (landmark 0.5 0.5 0).

(** Fingertips 0.03 apart, and the same fingertips at other depths. *)
Definition pinch : GestureRecognizerResult := {|
  landmarks := [hand_of (landmark 0.5 0.5 0) (landmark 0.53 0.5 0)];
  gestures := [[]]
|}.

Definition deep_pinch : GestureRecognizerResult := {|
  landmarks := [hand_of (landmark 0.5 0.5 7) (landmark 0.53 0.5 (-3))];
  gestures := [[]]
|}.

Definition recognizer : GestureRecognizer :=
  {| recognizeForVideo := fun _ _ => pinch |}.

Definition deep_recognizer : GestureRecognizer :=
  {| recognizeForVideo := fun _ _ => deep_pinch |}.

Definition service : VisionService.t :=
  {| gestureRecognizer := Some recognizer; lastVideoTime := -1 |}.

Definition frame_at (time : R) : HTMLVideoElement :=
  {| currentTime := time; frame := 0%nat |}.

(** The running application with an exploded cloud, showing the frame of
    time 0. *)
Definition running : App.t := {|
  appState := RUNNING;
  particleState := EXPLODED;
  particleStateRef := EXPLODED;
  debugText := "";
  videoRef := Some (frame_at 0);
  canvasRef := true;
  sceneControllerRef := Some Demo.halfway;
  requestRef := None;
  visionService := service
|}.

End DemoApp.

(** ** The loops over time *)

Module Lifecycle.

Import Constants Three Host SceneController.

(** The render loop over successive frames: before each frame gsap has
    written the value of the explosion factor for that frame. *)
Fixpoint render_frames (cfg : Constants.t) (factors : list R)
    (w : World) (s : SceneController.t) : World * SceneController.t :=
  match factors with
  | [] => (w, s)
  | f :: factors =>
      let '(w, s) := animate cfg w (set_explosionFactor s f) in
      render_frames cfg factors w s
  end.

(** The tweens requested for the explosion factor, for the bloom pass and
    for the position of the cloud, oldest first. *)
Fixpoint factor_tweens (es : list Effect) : list TweenVars :=
  match es with
  | [] => []
  | GsapTo ExplosionFactor vars :: es => vars :: factor_tweens es
  | _ :: es => factor_tweens es
  end.

Fixpoint bloom_tweens (es : list Effect) : list TweenVars :=
  match es with
  | [] => []
  | GsapTo BloomPass vars :: es => vars :: bloom_tweens es
  | _ :: es => bloom_tweens es
  end.

Fixpoint position_tweens (es : list Effect) : list TweenVars :=
  match es with
  | [] => []
  | GsapTo ParticlesPosition vars :: es => vars :: position_tweens es
  | _ :: es => position_tweens es
  end.

(** A factor tween and a bloom tween that run together: same duration, same
    easing, and a bloom strength one above the factor aimed at. *)
Definition lockstep (m b : TweenVars) : Prop :=
  duration m = duration b /\ ease m = ease b /\
  exists v, props m = [("value"%string, v)] /\
            props b = [("strength"%string, v + 1)].

(** The calls a list of effects makes to gsap or to the recognizer. *)
Definition quiet (e : Effect) : bool :=
  match e with
  | GsapTo _ _ | RecognizeForVideo _ _ => false
  | _ => true
  end.

(** The public methods of the controller and the frame callback, as the
    browser and [App] may call them in any order; a resize comes with the new
    size of the window. *)
Inductive Method :=
| Animate
| UpdateHandPosition (x y : R)
| TriggerExplosion
| TriggerAssembly
| HandleResize (width height : R)
| Cleanup.

Definition resize_window (width height : R) (w : World) : World :=
  {| innerWidth := width; innerHeight := height; now := now w;
     lastHandle := lastHandle w; random := random w;
     randomCalls := randomCalls w; effects := effects w |}.

Definition invoke (cfg : Constants.t) (m : Method) (w : World)
    (s : SceneController.t) : World * SceneController.t :=
  match m with
  | Animate => animate cfg w s
  | UpdateHandPosition x y => updateHandPosition w s x y
  | TriggerExplosion => triggerExplosion w s
  | TriggerAssembly => triggerAssembly w s
  | HandleResize width height => handleResize (resize_window width height w) s
  | Cleanup => cleanup w s
  end.

Fixpoint invoke_all (cfg : Constants.t) (ms : list Method) (w : World)
    (s : SceneController.t) : World * SceneController.t :=
  match ms with
  | [] => (w, s)
  | m :: ms => let '(w, s) := invoke cfg m w s in invoke_all cfg ms w s
  end.

End Lifecycle.

Module AppLifecycle.

Import Constants Host VisionService App.

(** The effect run on mount: [visionService.initialize()] resolves when a
    recognizer is already loaded or is created ([created] is what the creation
    yields, [None] when it fails), and rejects otherwise. *)
Definition initializeEffect (created : option GestureRecognizer) (a : App.t)
  : App.t :=
  match gestureRecognizer (visionService a), created with
  | None, None => setAppState a ERROR
  | Some _, None => setAppState a READY_TO_START
  | _, Some rec =>
      setAppState
        (set_visionService a (VisionService.initialize rec (visionService a)))
        READY_TO_START
  end.

(** Calls of [initialize()] over time: a call is made, or the creation
    awaited by an earlier call resolves.  [creating] lists the calls that
    passed the guard and await their recognizer. *)
Inductive Moment :=
| Called (call : nat)
| Resolved (call : nat) (created : GestureRecognizer).

Fixpoint initialize_over (moments : list Moment) (creating : list nat)
    (s : VisionService.t) : list nat * VisionService.t :=
  match moments with
  | [] => (creating, s)
  | Called call :: moments =>
      initialize_over moments
        (if initialize_begins s then call :: creating else creating) s
  | Resolved call created :: moments =>
      if existsb (Nat.eqb call) creating
      then initialize_over moments
             (List.filter (fun c => negb (Nat.eqb call c)) creating)
             (initialize_resolves created s)
      else initialize_over moments creating s
  end.

(** The part of a detector result that [predictWebcam] can tell apart: the
    (x, y) of the first hand's landmarks and the first hand's categories. *)
Definition first_hand (r : GestureRecognizerResult)
  : option (list (R * R)) * list Category :=
  (match landmarks r with
   | [] => None
   | hand :: _ => Some (map Observed.xy hand)
   end,
   detectedGestures r).

(** A recognizer that reports the demonstration hand and a second, empty
    hand with an open-palm category of its own. *)
Definition two_hands_recognizer : GestureRecognizer :=
  {| recognizeForVideo := fun _ _ =>
       {| landmarks := landmarks DemoApp.pinch ++ [[]];
          gestures := gestures DemoApp.pinch
                      ++ [[{| categoryName := "Open_Palm"; score := 0.9 |}]] |} |}.


(** The status line for what a result asks for. *)
Definition status_of (c : option ParticleState) : string :=
  match c with
  | Some SPHERE => "Gesture: Pinch (Create)"
  | Some EXPLODED => "Gesture: Open Palm (Explode)"
  | None => "Gesture: Tracking..."
  end.

(** The two tweens that [triggerAssembly] and [triggerExplosion] request. *)
Definition trigger_effects (p : ParticleState) : list Effect :=
  match p with
  | SPHERE =>
      [GsapTo ExplosionFactor
         {| props := [("value"%string, 0)]; duration := 0.6;
            ease := Some "power2.inOut"%string; overwrite := false |};
       GsapTo BloomPass
         {| props := [("strength"%string, 1)]; duration := 0.6;
            ease := Some "power2.inOut"%string; overwrite := false |}]
  | EXPLODED =>
      [GsapTo ExplosionFactor
         {| props := [("value"%string, 1)]; duration := 0.8;
            ease := Some "power2.out"%string; overwrite := false |};
       GsapTo BloomPass
         {| props := [("strength"%string, 2)]; duration := 0.8;
            ease := Some "power2.out"%string; overwrite := false |}]
  end.

(** What one call of the gesture branch adds to the host log. *)
Definition transition_effects (cfg : Constants.t) (a : App.t)
    (results : GestureRecognizerResult)
    (thumbTip indexTip : NormalizedLandmark) : list Effect :=
  match Observed.classified cfg results thumbTip indexTip with
  | Some target =>
      if ParticleState_eqb (particleStateRef a) target then []
      else trigger_effects target
  | None => []
  end.

End AppLifecycle.

(** * The numeric kernels, bit for bit *)

(** ** IEEE 754 numbers *)

Module Ieee.

(** A JavaScript number is a binary64 value, an element of a
    [Float32Array] a binary32 value; both are [spec_float]s, of the Standard
    Library's specification of IEEE 754 arithmetic. *)
Definition number := spec_float.
Definition binary32 := spec_float.

(** [+], [-], [*], [/] and [Math.sqrt] round to nearest, ties to even. *)
Definition add : number -> number -> number := SFadd 53 1024.
Definition sub : number -> number -> number := SFsub 53 1024.
Definition mul : number -> number -> number := SFmul 53 1024.
Definition div : number -> number -> number := SFdiv 53 1024.
Definition Math_sqrt : number -> number := SFsqrt 53 1024.

(** [a < b], [a > b] and [a === b]; all are false when an operand is NaN. *)
Definition lt (a b : number) : bool := SFltb a b.
Definition gt (a b : number) : bool := SFltb b a.
Definition strict_eq (a b : number) : bool := SFeqb a b.

Declare Scope ieee_scope.
Delimit Scope ieee_scope with ieee.
Infix "+" := add : ieee_scope.
Infix "-" := sub : ieee_scope.
Infix "*" := mul : ieee_scope.
Infix "/" := div : ieee_scope.

(** Integer and decimal literals: [decimal n d] is the literal whose value is
    [n / d] for a power of ten [d], that is the double nearest to it. *)
Definition of_Z (n : Z) : number := binary_normalize 53 1024 n 0 false.
Definition of_nat (n : nat) : number := of_Z (Z.of_nat n).
Definition decimal (n d : Z) : number := div (of_Z n) (of_Z d).

Definition zero : number := S754_zero false.
Definition one : number := of_Z 1.
Definition two : number := of_Z 2.

(** [Math.PI], 0x400921FB54442D18. *)
Definition Math_PI : number := S754_finite false 7074237752028440 (-51).

(** Reading an element of a [Float32Array] (exact) and storing a number
    into one (rounded to binary32). *)
Definition to_number (x : binary32) : number :=
  match x with
  | S754_finite s m e => binary_round 53 1024 s m e
  | _ => x
  end.

Definition to_binary32 (v : number) : binary32 :=
  match v with
  | S754_finite s m e => binary_round 24 128 s m e
  | _ => v
  end.

Definition finite (x : spec_float) : bool :=
  match x with
  | S754_zero _ | S754_finite _ _ _ => true
  | _ => false
  end.

(** A finite binary32 value in canonical form. *)
Definition is_binary32 (x : binary32) : bool :=
  finite x && valid_binary 24 128 x.

(** The rational that a finite value denotes. *)
Definition value (x : spec_float) : Q :=
  match x with
  | S754_finite s m e => inject_Z (cond_Zopp s (Zpos m)) * Qpower 2 e
  | _ => 0
  end.

(** The same value, bit for bit. *)
Definition same (a b : spec_float) : bool :=
  match a, b with
  | S754_zero s, S754_zero s' => Bool.eqb s s'
  | S754_infinity s, S754_infinity s' => Bool.eqb s s'
  | S754_nan, S754_nan => true
  | S754_finite s m e, S754_finite s' m' e' =>
      Bool.eqb s s' && Pos.eqb m m' && Z.eqb e e'
  | _, _ => false
  end.

(** What the engine supplies.  ECMAScript leaves [Math.acos], [Math.cos],
    [Math.sin] and [Math.pow] implementation-approximated, so they are
    functions of the engine, as are the values that [Math.random()]
    returns. *)
Record Engine := {
  Math_acos : number -> number;
  Math_cos : number -> number;
  Math_sin : number -> number;
  Math_pow : number -> number -> number;
  random : nat -> number;
  randomCalls : nat
}.

Definition Math_random (h : Engine) : number * Engine :=
  (random h (randomCalls h),
   {| Math_acos := Math_acos h; Math_cos := Math_cos h; Math_sin := Math_sin h;
      Math_pow := Math_pow h; random := random h;
      randomCalls := S (randomCalls h) |}).

(** The sampler's contract: every value lies in [0, 1). *)
Definition random_in_unit (h : Engine) : Prop :=
  forall k : nat,
    finite (random h k) = true /\ (0 <= value (random h k) < 1)%Q.

(** A typed array of binary32 elements.  Reading out of range yields
    [undefined], which is NaN in arithmetic; a store out of range does
    nothing. *)
Definition get (a : list binary32) (k : nat) : number :=
  match a !! k with
  | Some x => to_number x
  | None => S754_nan
  end.

Definition set (a : list binary32) (k : nat) (v : number) : list binary32 :=
  <[k := to_binary32 v]> a.

End Ieee.

(** ** constants, as doubles *)

Module RoundedConstants.

Import Ieee.

Record t := {
  PARTICLE_COUNT : nat;
  SPHERE_RADIUS : number;
  EXPLOSION_RADIUS : number;
  PINCH_THRESHOLD : number
}.

Definition shipped : t := {|
  PARTICLE_COUNT := 5000;
  SPHERE_RADIUS := decimal 15 10;
  EXPLOSION_RADIUS := of_Z 8;
  PINCH_THRESHOLD := decimal 8 100
|}.

End RoundedConstants.

(** ** components/SceneController.ts: the two loops over the typed arrays *)

Module RoundedScene.

Import Ieee RoundedConstants.

Local Open Scope ieee_scope.

(** The fields the two loops read and write. *)
Record t := {
  spherePositions : list binary32;
  explosionPositions : list binary32;
  currentPositions : list binary32;
  explosionFactor : number
}.

(** [new Float32Array(PARTICLE_COUNT * 3)], three times, and
    [explosionFactor = { value: 0 }]. *)
Definition new (cfg : RoundedConstants.t) : t :=
  {| spherePositions := replicate (PARTICLE_COUNT cfg * 3) zero;
     explosionPositions := replicate (PARTICLE_COUNT cfg * 3) zero;
     currentPositions := replicate (PARTICLE_COUNT cfg * 3) zero;
     explosionFactor := zero |}.

Definition set_explosionFactor (s : t) (f : number) : t :=
  {| spherePositions := spherePositions s;
     explosionPositions := explosionPositions s;
     currentPositions := currentPositions s;
     explosionFactor := f |}.

(** Three consecutive stores [a[i3] = x; a[i3 + 1] = y; a[i3 + 2] = z]. *)
Definition store3 (a : list binary32) (i3 : nat) (x y z : number)
  : list binary32 :=
  set (set (set a i3 x) (i3 + 1) y) (i3 + 2) z.

(** One iteration of the generation loop of [initParticles]. *)
Definition initParticles_body (cfg : RoundedConstants.t) (acc : Engine * t)
    (i : nat) : Engine * t :=
  let '(h, s) := acc in
  let i3 := (i * 3)%nat in
  let count := of_nat (PARTICLE_COUNT cfg) in
  let phi := Math_acos h (of_Z (-1) + (two * of_nat i) / count) in
  let theta := Math_sqrt (count * Math_PI) * phi in
  let sx := SPHERE_RADIUS cfg * Math_cos h theta * Math_sin h phi in
  let sy := SPHERE_RADIUS cfg * Math_sin h theta * Math_sin h phi in
  let sz := SPHERE_RADIUS cfg * Math_cos h phi in
  let '(u, h) := Math_random h in
  let '(v, h) := Math_random h in
  let thetaR := two * Math_PI * u in
  let phiR := Math_acos h (two * v - one) in
  let '(q, h) := Math_random h in
  let r := SPHERE_RADIUS cfg + q * (EXPLOSION_RADIUS cfg - SPHERE_RADIUS cfg) in
  (h,
   {| spherePositions := store3 (spherePositions s) i3 sx sy sz;
      explosionPositions :=
        store3 (explosionPositions s) i3
               (r * Math_sin h phiR * Math_cos h thetaR)
               (r * Math_sin h phiR * Math_sin h thetaR)
               (r * Math_cos h phiR);
      currentPositions := store3 (currentPositions s) i3 sx sy sz;
      explosionFactor := explosionFactor s |}).

(** The generation loop of [initParticles] (the geometry and the material
    that the method then creates hold no number computed here). *)
Definition initParticles_loop (cfg : RoundedConstants.t) (h : Engine) (s : t)
  : Engine * t :=
  fold_left (initParticles_body cfg) (seq 0 (PARTICLE_COUNT cfg)) (h, s).

(** One iteration of the interpolation loop of [animate], writing into
    [positions]. *)
Definition animate_body (s : t) (factor : number) (positions : list binary32)
    (i : nat) : list binary32 :=
  let i3 := (i * 3)%nat in
  store3 positions i3
    (get (spherePositions s) i3 * (one - factor)
     + get (explosionPositions s) i3 * factor)
    (get (spherePositions s) (i3 + 1) * (one - factor)
     + get (explosionPositions s) (i3 + 1) * factor)
    (get (spherePositions s) (i3 + 2) * (one - factor)
     + get (explosionPositions s) (i3 + 2) * factor).

(** The interpolation loop of [animate], run on the factor of the frame
    (the frame request, the rotation, the colour and the render call are in
    [SceneController.animate]). *)
Definition animate_loop (cfg : RoundedConstants.t) (s : t) : t :=
  let factor := explosionFactor s in
  {| spherePositions := spherePositions s;
     explosionPositions := explosionPositions s;
     currentPositions :=
       fold_left (animate_body s factor) (seq 0 (PARTICLE_COUNT cfg))
                 (currentPositions s);
     explosionFactor := explosionFactor s |}.

Definition sized (cfg : RoundedConstants.t) (s : t) : Prop :=
  Datatypes.length (spherePositions s) = (PARTICLE_COUNT cfg * 3)%nat /\
  Datatypes.length (explosionPositions s) = (PARTICLE_COUNT cfg * 3)%nat /\
  Datatypes.length (currentPositions s) = (PARTICLE_COUNT cfg * 3)%nat.

(** The value the loop writes at flat index [k]. *)
Definition lerp (s : t) (f : number) (k : nat) : number :=
  get (spherePositions s) k * (one - f) + get (explosionPositions s) k * f.

Definition lerp_loop (s : t) (f : number) (n : nat) (positions : list binary32)
  : list binary32 :=
  fold_left (animate_body s f) (seq 0 n) positions.


End RoundedScene.

(** ** The gesture branch of [predictWebcam], over doubles *)

Module RoundedApp.

Import Ieee RoundedConstants.

Local Open Scope ieee_scope.

Record NormalizedLandmark := { x : number; y : number; z : number }.

Record Category := { categoryName : string; score : number }.

Record GestureRecognizerResult := {
  landmarks : list (list NormalizedLandmark);
  gestures : list (list Category)
}.

(** The calls made on the scene controller. *)
Inductive Call := TriggerAssembly | TriggerExplosion.

(** What the branch reads and writes: the React state, the ref that mirrors
    it, the status line, and the calls made so far, oldest first. *)
Record t := {
  particleState : App.ParticleState;
  particleStateRef : App.ParticleState;
  debugText : string;
  calls : list Call
}.

Definition setDebugText (a : t) (text : string) : t :=
  {| particleState := particleState a; particleStateRef := particleStateRef a;
     debugText := text; calls := calls a |}.

(** [particleStateRef.current = p; setParticleState(p)], then the trigger. *)
Definition transition (a : t) (p : App.ParticleState) (c : Call) : t :=
  {| particleState := p; particleStateRef := p;
     debugText := debugText a; calls := calls a ++ [c] |}.

(** [Math.sqrt(Math.pow(thumbTip.x - indexTip.x, 2)
               + Math.pow(thumbTip.y - indexTip.y, 2))]. *)
Definition pinch_distance (h : Engine) (thumbTip indexTip : NormalizedLandmark)
  : number :=
  Math_sqrt (Math_pow h (x thumbTip - x indexTip) two
             + Math_pow h (y thumbTip - y indexTip) two).

(** [results.gestures.length > 0 ? results.gestures[0] : []]. *)
Definition detectedGestures (results : GestureRecognizerResult)
  : list Category :=
  match gestures results with
  | g :: _ => g
  | [] => []
  end.

Definition isOpenPalm (gs : list Category) : bool :=
  existsb (fun g => String.eqb (categoryName g) "Open_Palm"
                    && gt (score g) (decimal 5 10)) gs.

(** The gesture branch, entered with the two fingertips. *)
Definition gesture_logic (h : Engine) (cfg : RoundedConstants.t) (a : t)
    (results : GestureRecognizerResult)
    (thumbTip indexTip : NormalizedLandmark) : t :=
  let distance := pinch_distance h thumbTip indexTip in
  let openPalm := isOpenPalm (detectedGestures results) in
  if lt distance (PINCH_THRESHOLD cfg) then
    let a :=
      if negb (App.ParticleState_eqb (particleStateRef a) App.SPHERE)
      then transition a App.SPHERE TriggerAssembly
      else a in
    setDebugText a "Gesture: Pinch (Create)"
  else if openPalm || gt distance (decimal 2 10) then
    let a :=
      if negb (App.ParticleState_eqb (particleStateRef a) App.EXPLODED)
      then transition a App.EXPLODED TriggerExplosion
      else a in
    setDebugText a "Gesture: Open Palm (Explode)"
  else
    setDebugText a "Gesture: Tracking...".

(** The body of [predictWebcam] from the detector result to the status line
    (the position update and the frame request apart); [None] when reading a
    coordinate of a missing landmark throws. *)
Definition predictWebcam_branch (h : Engine) (cfg : RoundedConstants.t) (a : t)
    (results : option GestureRecognizerResult) : option t :=
  match results with
  | Some (Build_GestureRecognizerResult (hand :: _) _ as results) =>
      match hand !! 9%nat with
      | None => None
      | Some _ =>
          match hand !! 4%nat, hand !! 8%nat with
          | Some thumbTip, Some indexTip =>
              Some (gesture_logic h cfg a results thumbTip indexTip)
          | _, _ => None
          end
      end
  | _ => Some (setDebugText a "No Hand Detected")
  end.

(** An open-palm category with a score above 0.5 is among the categories
    reported for the first hand. *)
Definition open_palm_reported (results : GestureRecognizerResult) : Prop :=
  exists first others g,
    gestures results = first :: others /\ In g first /\
    categoryName g = "Open_Palm"%string /\ lt (decimal 5 10) (score g) = true.

End RoundedApp.

(** ** Concrete objects for the numeric kernels *)

Module RoundedDemo.

Import Ieee RoundedConstants RoundedScene RoundedApp.

(** One particle instead of five thousand. *)
Definition single : RoundedConstants.t := {|
  PARTICLE_COUNT := 1;
  SPHERE_RADIUS := decimal 15 10;
  EXPLOSION_RADIUS := of_Z 8;
  PINCH_THRESHOLD := decimal 8 100
|}.

(** A function known at the listed arguments only (NaN elsewhere). *)
Definition tabulated (table : list (number * number)) (v : number) : number :=
  match find (fun p => same v (fst p)) table with
  | Some p => snd p
  | None => S754_nan
  end.

(** sqrt(pi) * pi, the azimuth of the only particle of [single]. *)
Definition azimuth : number := S754_finite false 6269379972901994 (-50).

(** acos(-0.5), the polar angle drawn for the exploded particle. *)
Definition polar : number := S754_finite false 4716158501352294 (-51).

(** An engine whose samples are 0, 0.25, 0, 0, ... and whose [Math]
    functions return the correctly rounded values at the arguments that the
    generation of one particle reaches:
    acos(-1) = 3.141592653589793, acos(-0.5) = 2.0943951023931957,
    cos(5.568327996831707) = 0.7551867833453717,
    sin(5.568327996831707) = -0.6555096660313031,
    cos(3.141592653589793) = -1, sin(3.141592653589793) = 1.2246467991473532e-16,
    cos(0) = 1, sin(0) = 0,
    cos(2.0943951023931957) = -0.5000000000000002,
    sin(2.0943951023931957) = 0.8660254037844385;
    [Math.pow(b, 2)] is the correctly rounded square. *)
Definition engine : Engine := {|
  Math_acos := tabulated [(of_Z (-1), Math_PI); (decimal (-5) 10, polar)];
  Math_cos :=
    tabulated
      [(azimuth, S754_finite false 6802117832138679 (-53));
       (Math_PI, of_Z (-1));
       (zero, one);
       (polar, S754_finite true 4503599627370498 (-53))];
  Math_sin :=
    tabulated
      [(azimuth, S754_finite true 5904306175352670 (-53));
       (Math_PI, S754_finite false 4967757600021511 (-105));
       (zero, zero);
       (polar, S754_finite false 7800463371553961 (-53))];
  Math_pow := fun b e => if same e two then mul b b else S754_nan;
  random := fun k => match k with 1%nat => decimal 25 100 | _ => zero end;
  randomCalls := 0
|}.

(** The controller state after the generation of the one particle. *)
Definition generated : RoundedScene.t :=
  snd (initParticles_loop single engine (new single)).

(** The same state half way through a morph. *)
Definition halfway : RoundedScene.t :=
  set_explosionFactor generated (decimal 5 10).

Definition landmark (px py : number) : NormalizedLandmark :=
  {| x := px; y := py; z := zero |}.

(** A hand of 21 landmarks: the thumb tip at (0.5, 0.5), the index tip at
    ([px], 0.5). *)
Definition hand_at (px : number) : list NormalizedLandmark :=
  replicate 4 (landmark (decimal 5 10) (decimal 5 10))
  ++ [landmark (decimal 5 10) (decimal 5 10)]
  ++ replicate 3 (landmark (decimal 5 10) (decimal 5 10))
  ++ [landmark px (decimal 5 10)]
  ++ replicate 12 (landmark (decimal 5 10) (decimal 5 10)).

Definition result_at (px : number) (gs : list Category)
  : GestureRecognizerResult :=
  {| landmarks := [hand_at px]; gestures := [gs] |}.

Definition open_palm : Category :=
  {| categoryName := "Open_Palm"; score := decimal 9 10 |}.

Definition mapper (p : App.ParticleState) : RoundedApp.t :=
  {| particleState := p; particleStateRef := p; debugText := ""; calls := [] |}.

End RoundedDemo.

(** * Properties *)

(** ** The concrete objects are well formed *)

Module DemoFacts.

Import Constants Three Host SceneController Demo.

Lemma halfway_sized : sized two halfway.
Proof. repeat split. Qed.



End DemoFacts.

(** ** Comparisons and typed arrays *)

Module JsFacts.

Import Js.

Lemma lt_true a b : lt a b = true <-> a < b.
Proof. unfold lt. destruct (Rlt_dec a b); split; intros; auto; discriminate. Qed.

Lemma lt_false a b : lt a b = false <-> b <= a.
Proof.
  unfold lt. destruct (Rlt_dec a b); split; intros; auto; try discriminate; lra.
Qed.

Lemma gt_true a b : gt a b = true <-> b < a.
Proof. apply lt_true. Qed.

Lemma gt_false a b : gt a b = false <-> a <= b.
Proof. apply lt_false. Qed.

Lemma strict_ne_true a b : strict_ne a b = true <-> a <> b.
Proof.
  unfold strict_ne. destruct (Req_dec_T a b); split; intros;
    auto; try discriminate; try contradiction.
Qed.

Lemma strict_ne_false a b : strict_ne a b = false <-> a = b.
Proof.
  unfold strict_ne. destruct (Req_dec_T a b); split; intros;
    auto; try discriminate; try contradiction.
Qed.

Lemma get_lookup (a : list R) k v : a !! k = Some v -> get a k = v.
Proof. unfold get. intros ->. reflexivity. Qed.

Lemma lookup_get (a : list R) k :
  (k < Datatypes.length a)%nat -> a !! k = Some (get a k).
Proof.
  intros Hk. destruct (lookup_lt_is_Some_2 a k Hk) as [v Hv].
  rewrite (get_lookup _ _ _ Hv). exact Hv.
Qed.

Lemma get_insert_eq (a : list R) k v :
  (k < Datatypes.length a)%nat -> get (<[k := v]> a) k = v.
Proof. intros Hk. apply get_lookup, list_lookup_insert_eq, Hk. Qed.

Lemma get_insert_ne (a : list R) k j v :
  k <> j -> get (<[k := v]> a) j = get a j.
Proof. intros Hne. unfold get. rewrite list_lookup_insert_ne; auto. Qed.

End JsFacts.

(** ** IEEE 754 numbers *)

Module IeeeFacts.

Import Ieee.

Lemma iter_pos_iter {A} (f : A -> A) p :
  forall x, SpecFloat.iter_pos f p x = Pos.iter f x p.
Proof.
  induction p as [p IH | p IH |]; intros x; cbn.
  - rewrite !IH. rewrite <- !Pos.iter_swap. reflexivity.
  - rewrite !IH. reflexivity.
  - reflexivity.
Qed.

Lemma digits2_pos_iter m p :
  Zpos (digits2_pos (Pos.iter xO m p)) = (Zpos (digits2_pos m) + Zpos p)%Z.
Proof.
  induction p using Pos.peano_ind.
  - cbn. lia.
  - rewrite Pos.iter_succ. cbn [digits2_pos]. lia.
Qed.

(** Shifting right the bits that were shifted in loses nothing. *)
Lemma shr_iter m p :
  SpecFloat.iter_pos shr_1 p
    {| shr_m := Zpos (Pos.iter xO m p); shr_r := false; shr_s := false |}
  = {| shr_m := Zpos m; shr_r := false; shr_s := false |}.
Proof.
  rewrite iter_pos_iter.
  induction p using Pos.peano_ind.
  - reflexivity.
  - rewrite Pos.iter_succ_r. rewrite Pos.iter_succ. cbn [shr_1 orb]. exact IHp.
Qed.

Section Format.

Variables prec emax : Z.

Lemma shr_fexp_canonical m e :
  canonical_mantissa prec emax m e = true ->
  shr_fexp prec emax (Zpos m) e loc_Exact
  = ({| shr_m := Zpos m; shr_r := false; shr_s := false |}, e).
Proof.
  intros Hc. apply Z.eqb_eq in Hc.
  unfold shr_fexp. cbn [Zdigits2 shr_record_of_loc].
  rewrite Hc, Z.sub_diag. reflexivity.
Qed.

(** Rounding a value of the format gives it back. *)
Lemma round_canonical s m e :
  bounded prec emax m e = true ->
  binary_round_aux prec emax s (Zpos m) e loc_Exact = S754_finite s m e.
Proof.
  intros Hb. apply andb_prop in Hb as [Hc He].
  unfold binary_round_aux. rewrite (shr_fexp_canonical m e Hc).
  cbn [shr_m loc_of_shr_record round_nearest_even].
  rewrite (shr_fexp_canonical m e Hc). cbn [shr_m]. rewrite He. reflexivity.
Qed.

(** So does rounding it with its mantissa shifted left by [p] bits. *)
Lemma round_shifted s m e p :
  bounded prec emax m e = true ->
  binary_round_aux prec emax s (Zpos (Pos.iter xO m p)) (e - Zpos p) loc_Exact
  = S754_finite s m e.
Proof.
  intros Hb. pose proof Hb as Hb'. apply andb_prop in Hb' as [Hc He].
  pose proof Hc as Hc'. apply Z.eqb_eq in Hc'.
  unfold binary_round_aux.
  assert (Hs : shr_fexp prec emax (Zpos (Pos.iter xO m p)) (e - Zpos p) loc_Exact
               = ({| shr_m := Zpos m; shr_r := false; shr_s := false |}, e)).
  { unfold shr_fexp. cbn [Zdigits2 shr_record_of_loc].
    rewrite digits2_pos_iter.
    replace (Z.pos (digits2_pos m) + Z.pos p + (e - Z.pos p))%Z
      with (Z.pos (digits2_pos m) + e)%Z by lia.
    rewrite Hc'. replace (e - (e - Z.pos p))%Z with (Zpos p) by lia.
    cbn [shr]. rewrite shr_iter. f_equal. lia. }
  rewrite Hs. cbn [shr_m loc_of_shr_record round_nearest_even].
  rewrite (shr_fexp_canonical m e Hc). cbn [shr_m]. rewrite He. reflexivity.
Qed.

End Format.

(** [x * 1] is [x]. *)
Lemma mul_one s m e :
  bounded 53 1024 m e = true ->
  mul (S754_finite s m e) one = S754_finite s m e.
Proof.
  intros Hb. unfold mul, SFmul.
  change one with (S754_finite false 4503599627370496 (-52)).
  cbv iota beta. rewrite xorb_false_r.
  rewrite (Pos.mul_comm m).
  change (4503599627370496 * m)%positive with (Pos.iter xO m 52).
  change (e + -52)%Z with (e - 52)%Z.
  apply round_shifted, Hb.
Qed.

(** A binary32 element read as a number: the same sign, the mantissa
    shifted to 53 bits. *)
Lemma to_number_finite s m e :
  bounded 24 128 m e = true ->
  exists q,
    to_number (S754_finite s m e)
    = S754_finite s (Pos.iter xO m q) (e - Zpos q) /\
    bounded 53 1024 (Pos.iter xO m q) (e - Zpos q) = true /\
    fexp 24 128 (Zpos (digits2_pos m) + e) = e.
Proof.
  intros Hb. apply andb_prop in Hb as [Hc He].
  apply Z.eqb_eq in Hc. apply Z.leb_le in He.
  pose proof (Pos2Z.is_pos (digits2_pos m)) as Hd.
  set (d := Zpos (digits2_pos m)) in *.
  assert (Hd24 : (d <= 24)%Z) by (unfold fexp, emin in Hc; lia).
  assert (He149 : (-149 <= e)%Z) by (unfold fexp, emin in Hc; lia).
  assert (Hf : fexp 53 1024 (d + e) = (d + e - 53)%Z)
    by (unfold fexp, emin; lia).
  destruct (53 - d)%Z as [| q | q] eqn:Hq; try lia.
  exists q.
  assert (Hbq : bounded 53 1024 (Pos.iter xO m q) (e - Zpos q) = true).
  { unfold bounded, canonical_mantissa. rewrite digits2_pos_iter. fold d.
    apply andb_true_intro. split.
    - apply Z.eqb_eq. unfold fexp, emin. lia.
    - apply Z.leb_le. lia. }
  split; [| split; [exact Hbq | exact Hc]].
  unfold to_number, binary_round. fold d. rewrite Hf.
  unfold shl_align.
  replace (d + e - 53 - e)%Z with (Zneg q) by lia.
  replace (d + e - 53)%Z with (e - Zpos q)%Z by lia.
  apply round_canonical, Hbq.
Qed.

(** Storing what was read gives the element back. *)
Lemma to_binary32_to_number x :
  is_binary32 x = true -> to_binary32 (to_number x) = x.
Proof.
  destruct x as [s | s | | s m e]; try reflexivity; try discriminate.
  unfold is_binary32. cbn [finite valid_binary andb].
  intros Hb. pose proof Hb as Hb24.
  destruct (to_number_finite s m e Hb) as (q & Hq & Hbq & Hc).
  rewrite Hq. unfold to_binary32, binary_round.
  rewrite digits2_pos_iter.
  replace (Z.pos (digits2_pos m) + Z.pos q + (e - Z.pos q))%Z
    with (Z.pos (digits2_pos m) + e)%Z by lia.
  rewrite Hc. unfold shl_align.
  replace (e - (e - Zpos q))%Z with (Zpos q) by lia.
  apply round_shifted, Hb24.
Qed.

Lemma strict_eq_refl x : finite x = true -> strict_eq x x = true.
Proof.
  destruct x as [s | s | | s m e]; try discriminate; intros _.
  - reflexivity.
  - unfold strict_eq, SFeqb, SFcompare.
    rewrite Z.compare_refl, Pos.compare_cont_refl. destruct s; reflexivity.
Qed.

Lemma strict_eq_zero x : strict_eq x zero = true -> exists s, x = S754_zero s.
Proof.
  unfold strict_eq, SFeqb, SFcompare, zero.
  destruct x as [s | s | | s m e]; try (intros ?; discriminate); eauto.
  - destruct s; intros H; discriminate H.
  - destruct s; intros H; discriminate H.
Qed.

Lemma strict_eq_one x : strict_eq x one = true -> x = one.
Proof.
  change one with (S754_finite false 4503599627370496 (-52)).
  unfold strict_eq, SFeqb, SFcompare.
  destruct x as [s | s | | s m e]; try (intros ?; discriminate).
  - destruct s; intros H; discriminate H.
  - destruct s; [intros H; discriminate H |].
    destruct (Z.compare_spec e (-52)) as [-> | |];
      try (intros ?; discriminate).
    destruct (Pos.compare_cont Eq m 4503599627370496) eqn:E;
      try (intros ?; discriminate).
    intros _. apply Pos.compare_eq in E. rewrite E. reflexivity.
Qed.

(** The interpolated value at factor 0 and at factor 1, stored. *)
Lemma lerp_at_zero sx ex b :
  is_binary32 sx = true -> is_binary32 ex = true ->
  let stored :=
    to_binary32 (add (mul (to_number sx) (sub one (S754_zero b)))
                     (mul (to_number ex) (S754_zero b))) in
  strict_eq (to_number stored) (to_number sx) = true /\
  is_binary32 stored = true.
Proof.
  intros Hsx Hex. change (sub one (S754_zero b)) with one.
  destruct sx as [s | s | | s m e]; try discriminate;
    destruct ex as [s' | s' | | s' m' e']; try discriminate.
  - destruct s, s', b; split; reflexivity.
  - destruct (to_number_finite s' m' e' Hex) as (q' & -> & _ & _).
    destruct s, s', b; split; reflexivity.
  - destruct (to_number_finite s m e Hsx) as (q & Hq & Hb & _).
    cbv zeta. rewrite Hq, (mul_one _ _ _ Hb).
    change (mul (to_number (S754_zero s')) (S754_zero b))
      with (S754_zero (xorb s' b)).
    change (add (S754_finite s (Pos.iter xO m q) (e - Z.pos q))
                (S754_zero (xorb s' b)))
      with (S754_finite s (Pos.iter xO m q) (e - Z.pos q)).
    rewrite <- Hq, (to_binary32_to_number _ Hsx).
    split; [| exact Hsx]. rewrite Hq. apply strict_eq_refl. reflexivity.
  - destruct (to_number_finite s m e Hsx) as (q & Hq & Hb & _).
    destruct (to_number_finite s' m' e' Hex) as (q' & Hq' & _ & _).
    cbv zeta. rewrite Hq, (mul_one _ _ _ Hb), Hq'.
    change (mul (S754_finite s' (Pos.iter xO m' q') (e' - Z.pos q'))
                (S754_zero b))
      with (S754_zero (xorb s' b)).
    change (add (S754_finite s (Pos.iter xO m q) (e - Z.pos q))
                (S754_zero (xorb s' b)))
      with (S754_finite s (Pos.iter xO m q) (e - Z.pos q)).
    rewrite <- Hq, (to_binary32_to_number _ Hsx).
    split; [| exact Hsx]. rewrite Hq. apply strict_eq_refl. reflexivity.
Qed.

Lemma lerp_at_one sx ex :
  is_binary32 sx = true -> is_binary32 ex = true ->
  let stored :=
    to_binary32 (add (mul (to_number sx) (sub one one))
                     (mul (to_number ex) one)) in
  strict_eq (to_number stored) (to_number ex) = true /\
  is_binary32 stored = true.
Proof.
  intros Hsx Hex. change (sub one one) with (S754_zero false).
  destruct sx as [s | s | | s m e]; try discriminate;
    destruct ex as [s' | s' | | s' m' e']; try discriminate.
  - destruct s, s'; split; reflexivity.
  - destruct (to_number_finite s' m' e' Hex) as (q' & Hq' & Hb' & _).
    cbv zeta. rewrite Hq', (mul_one _ _ _ Hb').
    change (mul (to_number (S754_zero s)) (S754_zero false))
      with (S754_zero (xorb s false)).
    change (add (S754_zero (xorb s false))
                (S754_finite s' (Pos.iter xO m' q') (e' - Z.pos q')))
      with (S754_finite s' (Pos.iter xO m' q') (e' - Z.pos q')).
    rewrite <- Hq', (to_binary32_to_number _ Hex).
    split; [| exact Hex]. rewrite Hq'. apply strict_eq_refl. reflexivity.
  - destruct (to_number_finite s m e Hsx) as (q & -> & _ & _).
    destruct s, s'; split; reflexivity.
  - destruct (to_number_finite s m e Hsx) as (q & Hq & _ & _).
    destruct (to_number_finite s' m' e' Hex) as (q' & Hq' & Hb' & _).
    cbv zeta. rewrite Hq, Hq', (mul_one _ _ _ Hb').
    change (mul (S754_finite s (Pos.iter xO m q) (e - Z.pos q))
                (S754_zero false))
      with (S754_zero (xorb s false)).
    change (add (S754_zero (xorb s false))
                (S754_finite s' (Pos.iter xO m' q') (e' - Z.pos q')))
      with (S754_finite s' (Pos.iter xO m' q') (e' - Z.pos q')).
    rewrite <- Hq', (to_binary32_to_number _ Hex).
    split; [| exact Hex]. rewrite Hq'. apply strict_eq_refl. reflexivity.
Qed.

End IeeeFacts.

(** ** The interpolation loop over the typed arrays *)

Module RoundedSceneFacts.

Import Ieee RoundedConstants RoundedScene IeeeFacts.

Lemma set_length a k v : Datatypes.length (set a k v) = Datatypes.length a.
Proof. unfold set. apply length_insert. Qed.

Lemma rounded_store3_length a i3 x y z :
  Datatypes.length (store3 a i3 x y z) = Datatypes.length a.
Proof. unfold store3. rewrite !set_length. reflexivity. Qed.

(** Reading back after the three stores of one iteration. *)
Lemma lookup_store3 a i3 x y z k :
  (i3 + 2 < Datatypes.length a)%nat ->
  store3 a i3 x y z !! k =
    if Nat.eqb k i3 then Some (to_binary32 x)
    else if Nat.eqb k (i3 + 1) then Some (to_binary32 y)
    else if Nat.eqb k (i3 + 2) then Some (to_binary32 z)
    else a !! k.
Proof.
  intros Hlen. unfold store3, set.
  destruct (Nat.eqb_spec k i3) as [-> | H0].
  { rewrite !list_lookup_insert_ne by lia.
    apply list_lookup_insert_eq. lia. }
  destruct (Nat.eqb_spec k (i3 + 1)) as [-> | H1].
  { rewrite list_lookup_insert_ne by lia.
    apply list_lookup_insert_eq. rewrite length_insert. lia. }
  destruct (Nat.eqb_spec k (i3 + 2)) as [-> | H2].
  { apply list_lookup_insert_eq. rewrite !length_insert. lia. }
  rewrite !list_lookup_insert_ne by lia. reflexivity.
Qed.

Lemma rounded_lerp_loop_S s f n positions :
  lerp_loop s f (S n) positions =
  animate_body s f (lerp_loop s f n positions) n.
Proof. unfold lerp_loop. rewrite seq_S, fold_left_app. reflexivity. Qed.

Lemma rounded_lerp_loop_length s f n positions :
  Datatypes.length (lerp_loop s f n positions) = Datatypes.length positions.
Proof.
  induction n as [| n IH]; [reflexivity |].
  rewrite rounded_lerp_loop_S. unfold animate_body. rewrite rounded_store3_length. exact IH.
Qed.

(** Loop invariant: after [n] iterations the first [3 n] elements hold the
    interpolated values, rounded, and the others are as before. *)
Lemma lerp_loop_lookup s f n positions k :
  (n * 3 <= Datatypes.length positions)%nat ->
  lerp_loop s f n positions !! k =
    if Nat.ltb k (n * 3) then Some (to_binary32 (lerp s f k))
    else positions !! k.
Proof.
  induction n as [| n IH]; intros Hlen.
  - reflexivity.
  - rewrite rounded_lerp_loop_S. unfold animate_body.
    rewrite lookup_store3 by (rewrite rounded_lerp_loop_length; lia).
    rewrite IH by lia. unfold lerp.
    destruct (Nat.eqb_spec k (n * 3)) as [-> | H0].
    { destruct (Nat.ltb_spec (n * 3) (S n * 3)); [reflexivity | lia]. }
    destruct (Nat.eqb_spec k (n * 3 + 1)) as [-> | H1].
    { destruct (Nat.ltb_spec (n * 3 + 1) (S n * 3)); [reflexivity | lia]. }
    destruct (Nat.eqb_spec k (n * 3 + 2)) as [-> | H2].
    { destruct (Nat.ltb_spec (n * 3 + 2) (S n * 3)); [reflexivity | lia]. }
    destruct (Nat.ltb_spec k (n * 3)), (Nat.ltb_spec k (S n * 3));
      try reflexivity; lia.
Qed.

Lemma rounded_animate_lookup cfg s k :
  sized cfg s -> (k < PARTICLE_COUNT cfg * 3)%nat ->
  currentPositions (animate_loop cfg s) !! k
  = Some (to_binary32 (lerp s (explosionFactor s) k)).
Proof.
  intros (Hs & He & Hc) Hk. unfold animate_loop. cbn [currentPositions].
  fold (lerp_loop s (explosionFactor s) (PARTICLE_COUNT cfg) (currentPositions s)).
  rewrite lerp_loop_lookup by lia.
  destruct (Nat.ltb_spec k (PARTICLE_COUNT cfg * 3)); [reflexivity | lia].
Qed.

Lemma get_element (a : list binary32) k :
  Forall (fun x => is_binary32 x = true) a ->
  (k < Datatypes.length a)%nat ->
  exists x, a !! k = Some x /\ is_binary32 x = true /\ get a k = to_number x.
Proof.
  intros Hall Hk. destruct (lookup_lt_is_Some_2 a k Hk) as [x Hx].
  exists x. split; [exact Hx |]. split.
  - rewrite Forall_forall in Hall. apply Hall. eapply list_elem_of_lookup_2, Hx.
  - unfold get. rewrite Hx. reflexivity.
Qed.

(** The demonstration state. *)
Lemma generated_sized : sized RoundedDemo.single RoundedDemo.generated.
Proof. repeat split. Qed.

Lemma generated_binary32 :
  Forall (fun x => is_binary32 x = true)
         (spherePositions RoundedDemo.generated) /\
  Forall (fun x => is_binary32 x = true)
         (explosionPositions RoundedDemo.generated).
Proof. split; vm_compute; repeat constructor. Qed.


(** C1 fails at a concrete input: for the one particle that the generator
    lays out on [RoundedDemo.engine], half way through the morph, the stored x
    coordinate lies strictly below the arithmetic mean of the assembled and
    the exploded x coordinates. *)
Lemma halfway_mean_is_rounded :
  let s := RoundedDemo.halfway in
  let s' := animate_loop RoundedDemo.single s in
  sized RoundedDemo.single s /\
  explosionFactor s = decimal 5 10 /\
  Forall (fun x => is_binary32 x = true) (spherePositions s) /\
  Forall (fun x => is_binary32 x = true) (explosionPositions s) /\
  Forall (fun x => is_binary32 x = true) (currentPositions s') /\
  (value (get (currentPositions s') 0)
   < (value (get (spherePositions s) 0)
      + value (get (explosionPositions s) 0)) / 2)%Q.
Proof.
  split; [repeat split |]. split; [reflexivity |].
  split; [vm_compute; repeat constructor |].
  split; [vm_compute; repeat constructor |].
  split; [vm_compute; repeat constructor |].
  vm_compute. reflexivity.
Qed.

(** C1, as the code has it: in every frame, for every factor [f] and every
    coordinate, the loop of [animate] stores the double [assembled * (1 - f)
    + exploded * f] rounded to binary32.  When the two source arrays hold
    finite binary32 values, the stored coordinates equal the assembled ones
    for [f = 0] and the exploded ones for [f = 1] (as numbers: a zero may
    change sign); for [f = 0.5] the stored coordinate is the rounded double
    sum of the two halves.  The two source arrays are not written. *)
Theorem animate_rounds cfg s :
  sized cfg s ->
  let f := explosionFactor s in
  let s' := animate_loop cfg s in
  spherePositions s' = spherePositions s /\
  explosionPositions s' = explosionPositions s /\
  (forall i c, (i < PARTICLE_COUNT cfg)%nat -> (c < 3)%nat ->
     currentPositions s' !! (i * 3 + c)%nat
     = Some (to_binary32
               (add (mul (get (spherePositions s) (i * 3 + c)) (sub one f))
                    (mul (get (explosionPositions s) (i * 3 + c)) f)))) /\
  (Forall (fun x => is_binary32 x = true) (spherePositions s) ->
   Forall (fun x => is_binary32 x = true) (explosionPositions s) ->
   (strict_eq f zero = true ->
    forall k, (k < PARTICLE_COUNT cfg * 3)%nat ->
      strict_eq (get (currentPositions s') k) (get (spherePositions s) k)
      = true) /\
   (strict_eq f one = true ->
    forall k, (k < PARTICLE_COUNT cfg * 3)%nat ->
      strict_eq (get (currentPositions s') k) (get (explosionPositions s) k)
      = true) /\
   (f = decimal 5 10 ->
    forall k, (k < PARTICLE_COUNT cfg * 3)%nat ->
      currentPositions s' !! k
      = Some (to_binary32
                (add (mul (get (spherePositions s) k) (decimal 5 10))
                     (mul (get (explosionPositions s) k) (decimal 5 10)))))).
Proof.
  intros Hsz f s'. pose proof Hsz as (Hs & He & Hc).
  split; [reflexivity |]. split; [reflexivity |]. split.
  { intros i c Hi Hcc. apply (rounded_animate_lookup cfg s _ Hsz). lia. }
  intros Hbs Hbe. split; [| split].
  - intros Hf k Hk. apply strict_eq_zero in Hf as [b Hf].
    destruct (get_element _ k Hbs ltac:(lia)) as (sx & _ & Hsx & Hgs).
    destruct (get_element _ k Hbe ltac:(lia)) as (ex & _ & Hex & Hge).
    unfold get at 1. subst s'. rewrite (rounded_animate_lookup cfg s k Hsz Hk).
    unfold lerp. fold f. rewrite Hf, Hgs, Hge.
    apply (lerp_at_zero sx ex b Hsx Hex).
  - intros Hf k Hk. apply strict_eq_one in Hf.
    destruct (get_element _ k Hbs ltac:(lia)) as (sx & _ & Hsx & Hgs).
    destruct (get_element _ k Hbe ltac:(lia)) as (ex & _ & Hex & Hge).
    unfold get at 1. subst s'. rewrite (rounded_animate_lookup cfg s k Hsz Hk).
    unfold lerp. fold f. rewrite Hf, Hgs, Hge.
    apply (lerp_at_one sx ex Hsx Hex).
  - intros Hf k Hk. subst s'. rewrite (rounded_animate_lookup cfg s k Hsz Hk).
    unfold lerp. fold f. rewrite Hf. reflexivity.
Qed.

Lemma animate_rounds_witness :
  strict_eq (get (currentPositions
                    (animate_loop RoundedDemo.single RoundedDemo.generated)) 0)
            (get (spherePositions RoundedDemo.generated) 0) = true.
Proof.
  refine (proj1 (proj2 (proj2 (proj2
            (animate_rounds RoundedDemo.single RoundedDemo.generated
               generated_sized)))
            (proj1 generated_binary32) (proj2 generated_binary32))
            eq_refl 0%nat _).
  cbn. lia.
Defined.


End RoundedSceneFacts.

(** ** The gesture branch over doubles *)

Module RoundedAppFacts.

Import Ieee RoundedConstants RoundedApp.

Lemma isOpenPalm_reported results :
  isOpenPalm (detectedGestures results) = true <-> open_palm_reported results.
Proof.
  unfold isOpenPalm, open_palm_reported, detectedGestures.
  rewrite existsb_exists. split.
  - intros (g & Hin & Hg). apply andb_prop in Hg as [Hn Hs].
    apply String.eqb_eq in Hn.
    destruct (gestures results) as [| first others]; [destruct Hin |].
    exists first, others, g. auto.
  - intros (first & others & g & -> & Hin & Hn & Hs).
    exists g. split; [exact Hin |]. apply andb_true_intro. split.
    + apply String.eqb_eq, Hn.
    + exact Hs.
Qed.

(** What the branch leaves, case by case. *)
Lemma gesture_logic_cases h cfg a results thumbTip indexTip :
  let d := pinch_distance h thumbTip indexTip in
  let a' := gesture_logic h cfg a results thumbTip indexTip in
  (lt d (PINCH_THRESHOLD cfg) = true /\
   particleStateRef a' = App.SPHERE /\
   debugText a' = "Gesture: Pinch (Create)"%string) \/
  (lt d (PINCH_THRESHOLD cfg) = false /\
   (open_palm_reported results \/ gt d (decimal 2 10) = true) /\
   particleStateRef a' = App.EXPLODED /\
   debugText a' = "Gesture: Open Palm (Explode)"%string) \/
  (lt d (PINCH_THRESHOLD cfg) = false /\
   ~ open_palm_reported results /\ gt d (decimal 2 10) = false /\
   particleStateRef a' = particleStateRef a /\
   debugText a' = "Gesture: Tracking..."%string).
Proof.
  intros d a'. subst a'. unfold gesture_logic. fold d.
  destruct (lt d (PINCH_THRESHOLD cfg)) eqn:Hlt.
  - left. split; [reflexivity |].
    destruct (particleStateRef a) eqn:Href; cbn; rewrite ?Href; auto.
  - right.
    destruct (isOpenPalm (detectedGestures results)) eqn:Hop.
    + left. split; [reflexivity |]. split.
      { left. apply isOpenPalm_reported, Hop. }
      destruct (particleStateRef a) eqn:Href; cbn; rewrite ?Href; auto.
    + assert (Hno : ~ open_palm_reported results).
      { intros H. apply isOpenPalm_reported in H. congruence. }
      destruct (gt d (decimal 2 10)) eqn:Hgt.
      * left. split; [reflexivity |]. split; [right; reflexivity |].
        destruct (particleStateRef a) eqn:Href; cbn; rewrite ?Href; auto.
      * right. cbn. auto.
Qed.

Lemma predictWebcam_branch_hand h cfg a results hand others center thumbTip indexTip :
  landmarks results = hand :: others ->
  hand !! 9%nat = Some center ->
  hand !! 4%nat = Some thumbTip ->
  hand !! 8%nat = Some indexTip ->
  predictWebcam_branch h cfg a (Some results)
  = Some (gesture_logic h cfg a results thumbTip indexTip).
Proof.
  intros Hl H9 H4 H8. unfold predictWebcam_branch. destruct results as [ls gs].
  cbn in Hl. subst ls. rewrite H9, H4, H8. reflexivity.
Qed.

(** C2: for a detector result with a hand, the classifier computes the
    distance between thumb tip (landmark 4) and index tip (landmark 8) as the
    double [Math.sqrt(Math.pow(dx, 2) + Math.pow(dy, 2))]; when it is below
    [PINCH_THRESHOLD] the target state becomes SPHERE; else, when an
    [Open_Palm] category with a score above 0.5 is reported for the hand or
    the distance exceeds 0.2, it becomes EXPLODED; else the target is kept.
    With the threshold 0.08, a distance of 0.03 gives SPHERE, 0.25 gives
    EXPLODED, and 0.15 without open palm changes nothing. *)
Theorem gesture_classifier_three_way h cfg a results hand others center
    thumbTip indexTip :
  landmarks results = hand :: others ->
  hand !! 9%nat = Some center ->
  hand !! 4%nat = Some thumbTip ->
  hand !! 8%nat = Some indexTip ->
  let d :=
    Math_sqrt (add (Math_pow h (sub (x thumbTip) (x indexTip)) two)
                   (Math_pow h (sub (y thumbTip) (y indexTip)) two)) in
  let open_palm :=
    exists first rest g,
      gestures results = first :: rest /\ In g first /\
      categoryName g = "Open_Palm"%string /\
      lt (decimal 5 10) (score g) = true in
  exists a',
    predictWebcam_branch h cfg a (Some results) = Some a' /\
    (lt d (PINCH_THRESHOLD cfg) = true -> particleStateRef a' = App.SPHERE) /\
    (lt d (PINCH_THRESHOLD cfg) = false ->
     open_palm \/ lt (decimal 2 10) d = true ->
     particleStateRef a' = App.EXPLODED) /\
    (lt d (PINCH_THRESHOLD cfg) = false ->
     ~ open_palm -> lt (decimal 2 10) d = false ->
     particleStateRef a' = particleStateRef a) /\
    (PINCH_THRESHOLD cfg = decimal 8 100 ->
     (d = decimal 3 100 -> particleStateRef a' = App.SPHERE) /\
     (d = decimal 25 100 -> particleStateRef a' = App.EXPLODED) /\
     (d = decimal 15 100 -> ~ open_palm ->
      particleStateRef a' = particleStateRef a)).
Proof.
  intros Hl H9 H4 H8 d open_palm.
  exists (gesture_logic h cfg a results thumbTip indexTip).
  split; [exact (predictWebcam_branch_hand h cfg a results hand others center
                   thumbTip indexTip Hl H9 H4 H8) |].
  pose proof (gesture_logic_cases h cfg a results thumbTip indexTip) as Hcases.
  cbv zeta in Hcases.
  change (pinch_distance h thumbTip indexTip) with d in Hcases.
  change (open_palm_reported results) with open_palm in Hcases.
  change (gt d (decimal 2 10)) with (lt (decimal 2 10) d) in Hcases.
  set (a' := gesture_logic h cfg a results thumbTip indexTip) in *.
  assert (Hpinch : lt d (PINCH_THRESHOLD cfg) = true ->
                   particleStateRef a' = App.SPHERE).
  { intros Hd. destruct Hcases as [(_ & H & _) | [(E & _) | (E & _)]];
      [exact H | congruence | congruence]. }
  assert (Hopen : lt d (PINCH_THRESHOLD cfg) = false ->
                  open_palm \/ lt (decimal 2 10) d = true ->
                  particleStateRef a' = App.EXPLODED).
  { intros Hd Ho.
    destruct Hcases as [(E & _) | [(_ & _ & H & _) | (_ & Hn & Hg & _)]];
      [congruence | exact H |].
    destruct Ho as [Ho | Ho]; [contradiction | congruence]. }
  assert (Hkeep : lt d (PINCH_THRESHOLD cfg) = false ->
                  ~ open_palm -> lt (decimal 2 10) d = false ->
                  particleStateRef a' = particleStateRef a).
  { intros Hd Hn Hg.
    destruct Hcases as [(E & _) | [(_ & Ho & _) | (_ & _ & _ & H & _)]];
      [congruence | | exact H].
    destruct Ho as [Ho | Ho]; [contradiction | congruence]. }
  split; [exact Hpinch |]. split; [exact Hopen |]. split; [exact Hkeep |].
  intros Hthr. rewrite Hthr in Hpinch, Hopen, Hkeep.
  split; [| split].
  - intros Hd. apply Hpinch. rewrite Hd. reflexivity.
  - intros Hd. apply Hopen; [| right]; rewrite Hd; reflexivity.
  - intros Hd Hn. apply Hkeep; [| exact Hn |]; rewrite Hd; reflexivity.
Qed.

Lemma no_open_palm px :
  ~ open_palm_reported (RoundedDemo.result_at px []).
Proof.
  intros (first & rest & g & Hg & Hin & _). cbn in Hg.
  injection Hg as <- <-. destruct Hin.
Qed.

Lemma gesture_classifier_three_way_witness :
  (exists a',
     predictWebcam_branch RoundedDemo.engine shipped (RoundedDemo.mapper App.EXPLODED)
       (Some (RoundedDemo.result_at (decimal 53 100) [])) = Some a' /\
     particleStateRef a' = App.SPHERE) /\
  (exists a',
     predictWebcam_branch RoundedDemo.engine shipped (RoundedDemo.mapper App.SPHERE)
       (Some (RoundedDemo.result_at (decimal 75 100) [])) = Some a' /\
     particleStateRef a' = App.EXPLODED) /\
  (exists a',
     predictWebcam_branch RoundedDemo.engine shipped (RoundedDemo.mapper App.SPHERE)
       (Some (RoundedDemo.result_at (decimal 65 100) [RoundedDemo.open_palm]))
     = Some a' /\
     particleStateRef a' = App.EXPLODED) /\
  (exists a',
     predictWebcam_branch RoundedDemo.engine shipped (RoundedDemo.mapper App.EXPLODED)
       (Some (RoundedDemo.result_at (decimal 65 100) [])) = Some a' /\
     particleStateRef a' = App.EXPLODED).
Proof.
  split; [| split; [| split]].
  - destruct (gesture_classifier_three_way RoundedDemo.engine shipped
                (RoundedDemo.mapper App.EXPLODED)
                (RoundedDemo.result_at (decimal 53 100) [])
                _ _ _ _ _ eq_refl eq_refl eq_refl eq_refl)
      as (a' & Hc & Hpinch & _).
    exists a'. split; [exact Hc |]. apply Hpinch. vm_compute. reflexivity.
  - destruct (gesture_classifier_three_way RoundedDemo.engine shipped
                (RoundedDemo.mapper App.SPHERE)
                (RoundedDemo.result_at (decimal 75 100) [])
                _ _ _ _ _ eq_refl eq_refl eq_refl eq_refl)
      as (a' & Hc & _ & Hopen & _).
    exists a'. split; [exact Hc |].
    apply Hopen; [| right]; vm_compute; reflexivity.
  - destruct (gesture_classifier_three_way RoundedDemo.engine shipped
                (RoundedDemo.mapper App.SPHERE)
                (RoundedDemo.result_at (decimal 65 100) [RoundedDemo.open_palm])
                _ _ _ _ _ eq_refl eq_refl eq_refl eq_refl)
      as (a' & Hc & _ & Hopen & _).
    exists a'. split; [exact Hc |].
    apply Hopen; [vm_compute; reflexivity |]. left.
    exists [RoundedDemo.open_palm], [], RoundedDemo.open_palm.
    split; [reflexivity |]. split; [left; reflexivity |].
    split; [reflexivity | vm_compute; reflexivity].
  - destruct (gesture_classifier_three_way RoundedDemo.engine shipped
                (RoundedDemo.mapper App.EXPLODED)
                (RoundedDemo.result_at (decimal 65 100) [])
                _ _ _ _ _ eq_refl eq_refl eq_refl eq_refl)
      as (a' & Hc & _ & _ & Hkeep & _).
    exists a'. split; [exact Hc |].
    apply Hkeep; [vm_compute; reflexivity | apply no_open_palm
                 | vm_compute; reflexivity].
Defined.

(** X17: with a hand in view the status line names what the result asks for,
    whether or not a transition is issued: "Gesture: Pinch (Create)" when the
    computed distance is below the pinch threshold, "Gesture: Open Palm
    (Explode)" else when an open palm is reported or the distance exceeds 0.2,
    "Gesture: Tracking..." otherwise. *)
Theorem gesture_classifier_status h cfg a results hand others center thumbTip indexTip :
  landmarks results = hand :: others ->
  hand !! 9%nat = Some center ->
  hand !! 4%nat = Some thumbTip ->
  hand !! 8%nat = Some indexTip ->
  let d :=
    Math_sqrt (add (Math_pow h (sub (x thumbTip) (x indexTip)) two)
                   (Math_pow h (sub (y thumbTip) (y indexTip)) two)) in
  let open_palm :=
    exists first rest g,
      gestures results = first :: rest /\ In g first /\
      categoryName g = "Open_Palm"%string /\
      lt (decimal 5 10) (score g) = true in
  exists a',
    predictWebcam_branch h cfg a (Some results) = Some a' /\
    (lt d (PINCH_THRESHOLD cfg) = true ->
     debugText a' = "Gesture: Pinch (Create)"%string) /\
    (lt d (PINCH_THRESHOLD cfg) = false ->
     open_palm \/ lt (decimal 2 10) d = true ->
     debugText a' = "Gesture: Open Palm (Explode)"%string) /\
    (lt d (PINCH_THRESHOLD cfg) = false ->
     ~ open_palm -> lt (decimal 2 10) d = false ->
     debugText a' = "Gesture: Tracking..."%string).
Proof.
  intros Hl H9 H4 H8 d open_palm.
  exists (gesture_logic h cfg a results thumbTip indexTip).
  split; [exact (predictWebcam_branch_hand h cfg a results hand others center
                   thumbTip indexTip Hl H9 H4 H8) |].
  pose proof (gesture_logic_cases h cfg a results thumbTip indexTip) as Hcases.
  cbv zeta in Hcases.
  change (pinch_distance h thumbTip indexTip) with d in Hcases.
  change (open_palm_reported results) with open_palm in Hcases.
  change (gt d (decimal 2 10)) with (lt (decimal 2 10) d) in Hcases.
  set (a' := gesture_logic h cfg a results thumbTip indexTip) in *.
  split; [| split].
  - intros Hd. destruct Hcases as [(_ & _ & H) | [(E & _) | (E & _)]];
      [exact H | congruence | congruence].
  - intros Hd Ho.
    destruct Hcases as [(E & _) | [(_ & _ & _ & H) | (_ & Hn & Hg & _)]];
      [congruence | exact H |].
    destruct Ho as [Ho | Ho]; [contradiction | congruence].
  - intros Hd Hn Hg.
    destruct Hcases as [(E & _) | [(_ & Ho & _) | (_ & _ & _ & _ & H)]];
      [congruence | | exact H].
    destruct Ho as [Ho | Ho]; [contradiction | congruence].
Qed.

Lemma gesture_classifier_status_witness :
  exists a',
    predictWebcam_branch RoundedDemo.engine shipped (RoundedDemo.mapper App.SPHERE)
      (Some (RoundedDemo.result_at (decimal 53 100) [])) = Some a' /\
    debugText a' = "Gesture: Pinch (Create)"%string /\
    calls a' = [].
Proof.
  destruct (gesture_classifier_status RoundedDemo.engine shipped
              (RoundedDemo.mapper App.SPHERE)
              (RoundedDemo.result_at (decimal 53 100) [])
              _ _ _ _ _ eq_refl eq_refl eq_refl eq_refl)
    as (a' & Hc & Hpinch & _).
  exists a'. split; [exact Hc |]. split.
  - apply Hpinch. vm_compute. reflexivity.
  - vm_compute in Hc. injection Hc as <-. reflexivity.
Defined.

End RoundedAppFacts.

(** ** The interpolation loop of [animate] *)

Module AnimateFacts.

Import Constants Three Host SceneController JsFacts Derived.

Lemma store3_length a i3 x y z :
  Datatypes.length (store3 a i3 x y z) = Datatypes.length a.
Proof. unfold store3. rewrite !length_insert. reflexivity. Qed.

(** Reading back after the three stores of one iteration. *)
Lemma get_store3 a i3 x y z k :
  (i3 + 2 < Datatypes.length a)%nat ->
  Js.get (store3 a i3 x y z) k =
    if Nat.eqb k i3 then x
    else if Nat.eqb k (i3 + 1) then y
    else if Nat.eqb k (i3 + 2) then z
    else Js.get a k.
Proof.
  intros Hlen. unfold store3.
  destruct (Nat.eqb_spec k i3) as [-> | H0].
  { rewrite !get_insert_ne by lia. apply get_insert_eq. lia. }
  destruct (Nat.eqb_spec k (i3 + 1)) as [-> | H1].
  { rewrite get_insert_ne by lia. apply get_insert_eq.
    rewrite length_insert. lia. }
  destruct (Nat.eqb_spec k (i3 + 2)) as [-> | H2].
  { apply get_insert_eq. rewrite !length_insert. lia. }
  rewrite !get_insert_ne by lia. reflexivity.
Qed.

Lemma lerp_loop_S s f n positions :
  lerp_loop s f (S n) positions =
  animate_body s f (lerp_loop s f n positions) n.
Proof. unfold lerp_loop. rewrite seq_S, fold_left_app. reflexivity. Qed.

Lemma lerp_loop_length s f n positions :
  Datatypes.length (lerp_loop s f n positions) = Datatypes.length positions.
Proof.
  induction n as [| n IH]; [reflexivity |].
  rewrite lerp_loop_S. unfold animate_body. rewrite store3_length. exact IH.
Qed.

(** Loop invariant: after [n] iterations the first [3 n] coordinates are
    interpolated and the others are as before. *)
Lemma lerp_loop_get s f n positions k :
  (n * 3 <= Datatypes.length positions)%nat ->
  Js.get (lerp_loop s f n positions) k =
    if Nat.ltb k (n * 3) then lerp s f k else Js.get positions k.
Proof.
  induction n as [| n IH]; intros Hlen.
  - reflexivity.
  - rewrite lerp_loop_S. unfold animate_body.
    rewrite get_store3 by (rewrite lerp_loop_length; lia).
    rewrite IH by lia. unfold lerp.
    destruct (Nat.eqb_spec k (n * 3)) as [-> | H0].
    { destruct (Nat.ltb_spec (n * 3) (S n * 3)); [reflexivity | lia]. }
    destruct (Nat.eqb_spec k (n * 3 + 1)) as [-> | H1].
    { destruct (Nat.ltb_spec (n * 3 + 1) (S n * 3)); [reflexivity | lia]. }
    destruct (Nat.eqb_spec k (n * 3 + 2)) as [-> | H2].
    { destruct (Nat.ltb_spec (n * 3 + 2) (S n * 3)); [reflexivity | lia]. }
    destruct (Nat.ltb_spec k (n * 3)), (Nat.ltb_spec k (S n * 3));
      try reflexivity; lia.
Qed.

(** What [animate] leaves in the controller, field by field. *)
Lemma animate_currentPositions cfg w s p :
  particles s = Some p ->
  currentPositions (snd (animate cfg w s)) =
  lerp_loop s (explosionFactor s) (PARTICLE_COUNT cfg) (currentPositions s).
Proof.
  intros Hp. unfold animate, composer_render. cbn. rewrite Hp. reflexivity.
Qed.

Lemma animate_preserves_sources cfg w s :
  spherePositions (snd (animate cfg w s)) = spherePositions s /\
  explosionPositions (snd (animate cfg w s)) = explosionPositions s /\
  explosionFactor (snd (animate cfg w s)) = explosionFactor s.
Proof.
  unfold animate, composer_render. cbn. destruct (particles s); cbn; auto.
Qed.

Lemma animate_lookup cfg w s p k :
  particles s = Some p -> sized cfg s ->
  (k < PARTICLE_COUNT cfg * 3)%nat ->
  currentPositions (snd (animate cfg w s)) !! k
  = Some (lerp s (explosionFactor s) k).
Proof.
  intros Hp (Hs & He & Hc) Hk.
  rewrite (animate_currentPositions _ _ _ _ Hp).
  rewrite lookup_get by (rewrite lerp_loop_length; lia).
  rewrite lerp_loop_get by lia.
  destruct (Nat.ltb_spec k (PARTICLE_COUNT cfg * 3)); [reflexivity | lia].
Qed.

(** C7: in every frame [animate] sets the material colour to one of two fixed
    hues by a hard threshold of the morph factor at 0.5: 0xe879f9 when the
    factor exceeds 0.5 and 0x8b5cf6 otherwise; no other colour is ever set. *)
Theorem animate_color_threshold cfg w s p :
  particles s = Some p ->
  exists p',
    particles (snd (animate cfg w s)) = Some p' /\
    (0.5 < explosionFactor s -> color p' = 0xe879f9%Z) /\
    (explosionFactor s <= 0.5 -> color p' = 0x8b5cf6%Z) /\
    (color p' = 0xe879f9%Z \/ color p' = 0x8b5cf6%Z).
Proof.
  intros Hp. eexists. split.
  - unfold animate, composer_render. cbn. rewrite Hp. reflexivity.
  - cbn [color]. unfold frame_color.
    destruct (Js.gt (explosionFactor s) 0.5) eqn:E.
    + apply gt_true in E. repeat split; auto. intros; lra.
    + apply gt_false in E. repeat split; auto. intros; lra.
Qed.

Lemma animate_color_threshold_witness :
  exists p',
    particles (snd (animate Demo.two Demo.world Demo.halfway)) = Some p' /\
    color p' = 0x8b5cf6%Z.
Proof.
  destruct (animate_color_threshold Demo.two Demo.world Demo.halfway Demo.cloud
              eq_refl) as (p' & Hp' & _ & Hle & _).
  exists p'. split; [exact Hp' |]. apply Hle. change (0.5 <= 0.5). lra.
Defined.

End AnimateFacts.

(** ** The shape generator, [initParticles] *)

Module ShapeFacts.

Import Constants Three Host SceneController JsFacts AnimateFacts Derived.

Lemma generation_loop_S cfg n acc :
  generation_loop cfg (S n) acc
  = initParticles_body cfg (generation_loop cfg n acc) n.
Proof. unfold generation_loop. rewrite seq_S, fold_left_app. reflexivity. Qed.

Lemma point_store3_same a i x y z :
  (i * 3 + 2 < Datatypes.length a)%nat ->
  point (store3 a (i * 3) x y z) i = vec3 x y z.
Proof.
  intros Hlen. unfold point. rewrite !get_store3 by exact Hlen.
  rewrite Nat.eqb_refl.
  destruct (Nat.eqb_spec (i * 3 + 1) (i * 3)); [lia |].
  rewrite Nat.eqb_refl.
  destruct (Nat.eqb_spec (i * 3 + 2) (i * 3)); [lia |].
  destruct (Nat.eqb_spec (i * 3 + 2) (i * 3 + 1)); [lia |].
  rewrite Nat.eqb_refl. reflexivity.
Qed.

Lemma point_store3_other a i j x y z :
  (i * 3 + 2 < Datatypes.length a)%nat -> j <> i ->
  point (store3 a (i * 3) x y z) j = point a j.
Proof.
  intros Hlen Hne. unfold point. rewrite !get_store3 by exact Hlen.
  repeat match goal with
         | |- context [Nat.eqb ?u ?v] => destruct (Nat.eqb_spec u v); [lia |]
         end.
  reflexivity.
Qed.

(** Loop invariant of the generation loop after [n] iterations. *)
Lemma generation_loop_spec cfg n w s :
  (n * 3 <= Datatypes.length (spherePositions s))%nat ->
  (n * 3 <= Datatypes.length (explosionPositions s))%nat ->
  (n * 3 <= Datatypes.length (currentPositions s))%nat ->
  let w' := fst (generation_loop cfg n (w, s)) in
  let s' := snd (generation_loop cfg n (w, s)) in
  randomCalls w' = (randomCalls w + n * 3)%nat /\
  random w' = random w /\
  effects w' = effects w /\
  Datatypes.length (spherePositions s') = Datatypes.length (spherePositions s) /\
  Datatypes.length (explosionPositions s')
    = Datatypes.length (explosionPositions s) /\
  Datatypes.length (currentPositions s')
    = Datatypes.length (currentPositions s) /\
  forall i, (i < n)%nat ->
    point (spherePositions s') i = sphere_point cfg i /\
    point (explosionPositions s') i
      = explosion_point cfg (random w) (randomCalls w) i /\
    point (currentPositions s') i = sphere_point cfg i.
Proof.
  induction n as [| n IH]; intros Hs He Hc.
  - cbn. repeat split; auto; intros; lia.
  - specialize (IH ltac:(lia) ltac:(lia) ltac:(lia)).
    cbv zeta in IH |- *. rewrite generation_loop_S.
    destruct (generation_loop cfg n (w, s)) as [wn sn]. cbn [fst snd] in IH.
    destruct IH as (Hrc & Hrnd & Heff & Hls & Hle & Hlc & Hpts).
    unfold initParticles_body, Math_random.
    cbn [fst snd random randomCalls effects spherePositions
         explosionPositions currentPositions].
    rewrite !store3_length.
    repeat split; try assumption; try lia.
    all: destruct (Nat.eq_dec i n) as [-> | Hne].
    all: try (rewrite point_store3_same by lia).
    all: try (rewrite point_store3_other by lia; apply Hpts; lia).
    + reflexivity.
    + unfold explosion_point, explosion_radius. rewrite Hrnd, Hrc.
      replace (S (randomCalls w + n * 3)) with (randomCalls w + n * 3 + 1)%nat
        by lia.
      replace (S (randomCalls w + n * 3 + 1))
        with (randomCalls w + n * 3 + 2)%nat by lia.
      reflexivity.
    + reflexivity.
Qed.




Lemma initParticles_arrays cfg w s :
  spherePositions (snd (initParticles cfg w s))
    = spherePositions (snd (generation_loop cfg (PARTICLE_COUNT cfg) (w, s))) /\
  explosionPositions (snd (initParticles cfg w s))
    = explosionPositions (snd (generation_loop cfg (PARTICLE_COUNT cfg) (w, s))) /\
  currentPositions (snd (initParticles cfg w s))
    = currentPositions (snd (generation_loop cfg (PARTICLE_COUNT cfg) (w, s))).
Proof.
  unfold initParticles. fold (generation_loop cfg (PARTICLE_COUNT cfg) (w, s)).
  destruct (generation_loop _ _ _). cbn. auto.
Qed.



End ShapeFacts.

(** ** The camera and the spatial mapper, [updateHandPosition] *)

Module CameraFacts.

Import Constants Three Host SceneController JsFacts Derived.

(** Decimal literals, as quotients of integers, for [field]. *)
Ltac decimals :=
  unfold Q2R in *; cbn [QArith_base.Qnum QArith_base.Qden] in *.

Ltac proj_matrix :=
  cbv beta iota zeta
      delta [e0 e1 e2 e3 e4 e5 e6 e7 e8 e9 e10 e11 e12 e13 e14 e15].

(** [invert] does invert: the adjugate formula is the one of the library. *)
Lemma invert_is_inverse m :
  determinant m <> 0 -> multiply (invert m) m = identity.
Proof.
  intros Hd. destruct m. unfold invert, determinant in *.
  proj_matrix. cbv beta iota zeta
    delta [e0 e1 e2 e3 e4 e5 e6 e7 e8 e9 e10 e11 e12 e13 e14 e15] in Hd.
  destruct (Req_dec_T _ 0) as [E | E]; [contradiction |].
  unfold multiply, identity. proj_matrix.
  f_equal; field; exact Hd.
Qed.

(** The inverse of a projection matrix of the shape [makePerspective]
    builds. *)
Lemma invert_frustum x y a b c d :
  x <> 0 -> y <> 0 -> d <> 0 ->
  invert (mat4 x 0 0 0  0 y 0 0  a b c (-1)  0 0 d 0)
  = mat4 (1 / x) 0 0 0  0 (1 / y) 0 0  0 0 0 (1 / d)
         (a / x) (b / y) (-1) (c / d).
Proof.
  intros Hx Hy Hd. unfold invert. proj_matrix.
  destruct (Req_dec_T _ 0) as [E | _].
  - exfalso. ring_simplify in E.
    assert (x * y * d <> 0)
      by (repeat apply Rmult_integral_contrapositive_currified; assumption).
    lra.
  - f_equal; try (field; repeat split; assumption).
Qed.

Lemma tanHalfFov_pos : 0 < tanHalfFov.
Proof.
  unfold tanHalfFov, DEG2RAD. pose proof PI_RGT_0.
  apply tan_gt_0; lra.
Qed.

Lemma viewDepth_pos : 0 < viewDepth.
Proof. unfold viewDepth. apply Rdiv_lt_0_compat; lra. Qed.

(** The camera of the program, for a positive aspect ratio. *)
Section ProgramCamera.

Variable a : R.
Hypothesis a_pos : 0 < a.

Lemma projectionMatrix_camera_of :
  projectionMatrix (camera_of a)
  = mat4 (1 / (a * tanHalfFov)) 0 0 0
         0 (1 / tanHalfFov) 0 0
         0 0 (- (100 + 0.1) / (100 - 0.1)) (-1)
         0 0 ((- 2 * 100 * 0.1) / (100 - 0.1)) 0.
Proof.
  pose proof tanHalfFov_pos as HT.
  unfold camera_of, updateMatrixWorld, set_position,
    newPerspectiveCamera, updateProjectionMatrix.
  cbn [projectionMatrix position fov aspect near far].
  fold tanHalfFov. unfold makePerspective.
  assert (HaT : 0 < a * tanHalfFov) by nra.
  decimals. f_equal; try (field; repeat split; nra).
Qed.

(** The clip-space point of [updateHandPosition] taken back to view space. *)
Lemma view_point_camera_of nx ny :
  applyMatrix4 (vec3 nx ny 0.5) (projectionMatrixInverse (camera_of a))
  = vec3 (nx * a * tanHalfFov * viewDepth) (ny * tanHalfFov * viewDepth)
         (- viewDepth).
Proof.
  pose proof tanHalfFov_pos as HT.
  change (projectionMatrixInverse (camera_of a))
    with (invert (projectionMatrix (camera_of a))).
  rewrite projectionMatrix_camera_of.
  rewrite invert_frustum.
  - unfold applyMatrix4, viewDepth. cbn. decimals.
    f_equal; try (field; repeat split; lra).
  - apply Rgt_not_eq. apply Rdiv_lt_0_compat; [lra | nra].
  - apply Rgt_not_eq. apply Rdiv_lt_0_compat; lra.
  - lra.
Qed.

(** The same point in world space, relative to the camera. *)
Lemma unproject_camera_of nx ny :
  sub (unproject (vec3 nx ny 0.5) (camera_of a)) (position (camera_of a))
  = vec3 (nx * a * tanHalfFov * viewDepth) (ny * tanHalfFov * viewDepth)
         (- viewDepth).
Proof.
  unfold unproject. rewrite view_point_camera_of.
  unfold applyMatrix4, sub. cbn. f_equal; field.
Qed.

(** The ray from the camera through a point, cut by the plane z = 0. *)
Lemma ray_hits_plane (p v : Vector3) :
  vz v <> 0 ->
  let ray := normalize v in
  let distance := - vz p / vz ray in
  add p (multiplyScalar ray distance)
  = vec3 (vx p - vz p * (vx v / vz v)) (vy p - vz p * (vy v / vz v)) 0.
Proof.
  intros Hz ray distance. subst ray distance.
  assert (Hpos : 0 < vx v * vx v + vy v * vy v + vz v * vz v).
  { assert (0 < vz v * vz v) by nra. nra. }
  assert (Hlen : 0 < Three.length v) by (apply sqrt_lt_R0, Hpos).
  unfold normalize. destruct (Req_dec_T (Three.length v) 0) as [E | _]; [lra |].
  unfold divideScalar, multiplyScalar, add. cbn [vx vy vz].
  f_equal; field; split; lra.
Qed.

(** The only guard of [updateHandPosition] is the existence of the cloud. *)
Lemma updateHandPosition_issues w s p x y :
  particles s = Some p ->
  updateHandPosition w s x y
  = (emit (position_tween (mapped_point (camera s) x y)) w, s).
Proof. intros Hp. unfold updateHandPosition. rewrite Hp. reflexivity. Qed.

Lemma updateHandPosition_no_cloud w s x y :
  particles s = None -> updateHandPosition w s x y = (w, s).
Proof. intros Hp. unfold updateHandPosition. rewrite Hp. reflexivity. Qed.

Lemma mapped_point_camera_of x y :
  mapped_point (camera_of a) x y
  = vec3 (8 * ((2 * x - 1) * a * tanHalfFov))
         (8 * ((- 2 * y + 1) * tanHalfFov)) 0.
Proof.
  pose proof viewDepth_pos as HD. pose proof tanHalfFov_pos as HT.
  unfold mapped_point, ray_direction.
  rewrite unproject_camera_of.
  rewrite ray_hits_plane by (cbn [vz]; lra).
  cbn [vx vy vz camera_of position updateMatrixWorld set_position].
  f_equal; field; lra.
Qed.


End ProgramCamera.

End CameraFacts.

(** ** The constructor *)

Module ConstructorFacts.

Import Constants Three Host SceneController JsFacts AnimateFacts ShapeFacts
       CameraFacts Derived.

(** The generation loop touches nothing but the three arrays and the
    sampler. *)
Lemma generation_loop_frame cfg n w s :
  let s' := snd (generation_loop cfg n (w, s)) in
  camera s' = camera s /\ particles s' = particles s /\
  explosionFactor s' = explosionFactor s /\ frameId s' = frameId s /\
  lastHandle (fst (generation_loop cfg n (w, s))) = lastHandle w.
Proof.
  induction n as [| n IH]; [cbn; auto 6 |].
  cbv zeta in *. rewrite generation_loop_S.
  destruct (generation_loop cfg n (w, s)) as [wn sn]. cbn [fst snd] in IH.
  unfold initParticles_body, Math_random. cbn. exact IH.
Qed.

Lemma initParticles_frame cfg w s :
  let s' := snd (initParticles cfg w s) in
  camera s' = camera s /\
  explosionFactor s' = explosionFactor s /\
  particles s' = Some {| points_position := vec3 0 0 0;
                         rotation_y := 0; rotation_z := 0;
                         color := COLOR_CORE cfg; needsUpdate := false |} /\
  lastHandle (fst (initParticles cfg w s)) = lastHandle w.
Proof.
  pose proof (generation_loop_frame cfg (PARTICLE_COUNT cfg) w s) as H.
  unfold initParticles. fold (generation_loop cfg (PARTICLE_COUNT cfg) (w, s)).
  destruct (generation_loop _ _ _) as [wn sn]. cbn in *. tauto.
Qed.

Lemma initParticles_sized cfg w s :
  sized cfg s -> sized cfg (snd (initParticles cfg w s)).
Proof.
  intros (Hs & He & Hc). unfold sized.
  destruct (initParticles_arrays cfg w s) as (-> & -> & ->).
  destruct (generation_loop_spec cfg (PARTICLE_COUNT cfg) w s
              ltac:(lia) ltac:(lia) ltac:(lia))
    as (_ & _ & _ & Hls & Hle & Hlc & _).
  lia.
Qed.

Lemma animate_camera cfg w s :
  camera (snd (animate cfg w s)) = updateMatrixWorld (camera s).
Proof.
  unfold animate, composer_render. cbn. destruct (particles s); reflexivity.
Qed.

Lemma animate_particles cfg w s p :
  particles s = Some p ->
  particles (snd (animate cfg w s))
  = Some {| points_position := points_position p;
            rotation_y := rotation_y p + 0.002;
            rotation_z := rotation_z p + 0.001;
            color := frame_color (explosionFactor s);
            needsUpdate := true |}.
Proof.
  intros Hp. unfold animate, composer_render. cbn. rewrite Hp. reflexivity.
Qed.

Lemma animate_sized cfg w s : sized cfg s -> sized cfg (snd (animate cfg w s)).
Proof.
  intros (Hs & He & Hc).
  destruct (animate_preserves_sources cfg w s) as (E1 & E2 & _).
  unfold sized. rewrite E1, E2. split; [exact Hs |]. split; [exact He |].
  destruct (particles s) as [p |] eqn:Hp.
  - rewrite (animate_currentPositions _ _ _ _ Hp), lerp_loop_length. exact Hc.
  - unfold animate, composer_render. cbn. rewrite Hp. exact Hc.
Qed.

Lemma new_unfold cfg w :
  exists w1 w2 s0,
    sized cfg s0 /\
    camera s0 = set_position
                  (newPerspectiveCamera 75 (innerWidth w / innerHeight w) 0.1 100)
                  (vec3 0 0 8) /\
    lastHandle w2 = lastHandle w /\
    new cfg w = animate cfg w2 (snd (initParticles cfg w1 s0)).
Proof.
  unfold new.
  match goal with
  | |- context [initParticles cfg ?w1 ?s0] =>
      exists w1;
      pose proof (initParticles_frame cfg w1 s0) as (_ & _ & _ & Hh);
      destruct (initParticles cfg w1 s0) as [wi si] eqn:E;
      exists (emit (AddEventListener "resize") wi), s0
  end.
  rewrite E. cbn [snd fst] in *. repeat split; cbn; try apply length_replicate.
  exact Hh.
Qed.

Lemma animate_frameId cfg w s :
  frameId (snd (animate cfg w s)) = Some (S (lastHandle w)).
Proof.
  unfold animate, composer_render. cbn. destruct (particles s); reflexivity.
Qed.

Lemma new_frameId cfg w :
  frameId (snd (new cfg w)) = Some (S (lastHandle w)).
Proof.
  destruct (new_unfold cfg w) as (w1 & w2 & s0 & _ & _ & Hh & ->).
  rewrite animate_frameId, Hh. reflexivity.
Qed.

Lemma new_camera cfg w :
  camera (snd (new cfg w)) = camera_of (innerWidth w / innerHeight w).
Proof.
  destruct (new_unfold cfg w) as (w1 & w2 & s0 & _ & Hcam & _ & ->).
  rewrite animate_camera.
  destruct (initParticles_frame cfg w1 s0) as (-> & _ & _ & _).
  rewrite Hcam. reflexivity.
Qed.

Lemma new_sized cfg w : sized cfg (snd (new cfg w)).
Proof.
  destruct (new_unfold cfg w) as (w1 & w2 & s0 & Hsz & _ & _ & ->).
  apply animate_sized, initParticles_sized, Hsz.
Qed.

Lemma new_particles cfg w :
  exists p, particles (snd (new cfg w)) = Some p.
Proof.
  destruct (new_unfold cfg w) as (w1 & w2 & s0 & _ & _ & _ & ->).
  destruct (initParticles_frame cfg w1 s0) as (_ & _ & Hp & _).
  rewrite (animate_particles _ _ _ _ Hp). eauto.
Qed.


End ConstructorFacts.


(** ** The spatial mapper *)

Module MapperFacts.

Import Constants Three Host SceneController JsFacts Derived CameraFacts
       ConstructorFacts.

(** C4: for every normalized input (x, y), [updateHandPosition] forms the clip
    point (2x - 1, -2y + 1, 0.5), unprojects it through the camera, casts the
    ray from the camera through it and cuts the plane z = 0 with
    t = -cameraZ / ray.z; the cloud is sent to cameraPosition + t * ray.  For
    the program's camera at z = 8 that point lies in the plane z = 0, and the
    image centre (0.5, 0.5) is mapped to the origin. *)
Theorem updateHandPosition_maps w s p a x y :
  0 < a ->
  particles s = Some p ->
  camera s = camera_of a ->
  let clip := vec3 ((x * 2) - 1) (- (y * 2) + 1) 0.5 in
  let ray := normalize (sub (unproject clip (camera s)) (position (camera s))) in
  let t := - vz (position (camera s)) / vz ray in
  let target := add (position (camera s)) (multiplyScalar ray t) in
  updateHandPosition w s x y = (emit (position_tween target) w, s) /\
  vz (position (camera s)) = 8 /\
  target = vec3 (8 * ((2 * x - 1) * a * tanHalfFov))
                (8 * ((- 2 * y + 1) * tanHalfFov)) 0 /\
  (x = 0.5 -> y = 0.5 -> target = vec3 0 0 0).
Proof.
  intros Ha Hp Hcam clip ray t target.
  assert (Ht : target = vec3 (8 * ((2 * x - 1) * a * tanHalfFov))
                             (8 * ((- 2 * y + 1) * tanHalfFov)) 0).
  { subst target t ray clip. rewrite Hcam.
    apply (mapped_point_camera_of a Ha x y). }
  split; [| split; [| split]].
  - apply (updateHandPosition_issues w s p x y Hp).
  - rewrite Hcam. reflexivity.
  - exact Ht.
  - intros -> ->. rewrite Ht. f_equal; lra.
Qed.

Lemma updateHandPosition_maps_witness :
  let s := snd (new shipped Demo.world) in
  let clip := vec3 ((0.5 * 2) - 1) (- (0.5 * 2) + 1) 0.5 in
  let ray := normalize (sub (unproject clip (camera s)) (position (camera s))) in
  let t := - vz (position (camera s)) / vz ray in
  add (position (camera s)) (multiplyScalar ray t) = vec3 0 0 0.
Proof.
  destruct (new_particles shipped Demo.world) as [p Hp].
  refine (proj2 (proj2 (proj2
            (updateHandPosition_maps Demo.world (snd (new shipped Demo.world)) p
               (1280 / 720) 0.5 0.5 _ Hp (new_camera shipped Demo.world))))
            eq_refl eq_refl).
  lra.
Defined.






End MapperFacts.

(** ** The detector wrapper, [detect] *)

Module VisionFacts.

Import Host VisionService Observed JsFacts.

Lemma effects_emit e w : effects (emit e w) = effects w ++ [e].
Proof. reflexivity. Qed.

Lemma processed_app es1 es2 :
  processed (es1 ++ es2) = processed es1 ++ processed es2.
Proof.
  induction es1 as [| e es1 IH]; [reflexivity |].
  destruct e; cbn; rewrite ?IH; reflexivity.
Qed.

(** The two ways a call of [detect] can go when a recognizer is loaded. *)
Lemma detect_same_frame w s video :
  currentTime video = lastVideoTime s -> detect w s video = (w, s, None).
Proof.
  intros Heq. unfold detect. destruct (gestureRecognizer s); [| reflexivity].
  apply strict_ne_false in Heq. rewrite Heq. reflexivity.
Qed.

Lemma detect_new_frame w s rec video :
  gestureRecognizer s = Some rec ->
  currentTime video <> lastVideoTime s ->
  detect w s video
  = (emit (RecognizeForVideo (currentTime video) (now w)) w,
     {| gestureRecognizer := Some rec; lastVideoTime := currentTime video |},
     Some (recognizeForVideo rec video (now w))).
Proof.
  intros Hrec Hne. unfold detect. rewrite Hrec.
  apply strict_ne_true in Hne. rewrite Hne. reflexivity.
Qed.

Lemma detect_not_loaded w s video :
  gestureRecognizer s = None -> detect w s video = (w, s, None).
Proof. intros Hrec. unfold detect. rewrite Hrec. reflexivity. Qed.

Lemma sorted_snoc (l : list R) (t : R) :
  StronglySorted Rlt l -> Forall (fun u => u < t) l ->
  StronglySorted Rlt (l ++ [t]).
Proof.
  induction 1 as [| u l Hl IH Hu]; intros Hall; cbn.
  - repeat constructor.
  - inversion Hall as [| ? ? Hut Hrest]; subst.
    constructor; [apply IH, Hrest |].
    apply Forall_app. split; [exact Hu | constructor; [exact Hut | constructor]].
Qed.

Lemma detect_polled w s video :
  polled w s -> lastVideoTime s <= currentTime video ->
  polled (fst (fst (detect w s video))) (snd (fst (detect w s video))) /\
  (lastVideoTime (snd (fst (detect w s video))) = lastVideoTime s \/
   lastVideoTime (snd (fst (detect w s video))) = currentTime video).
Proof.
  intros [Hsorted Hbound] Hle.
  destruct (gestureRecognizer s) as [rec |] eqn:Hrec.
  - destruct (Req_dec_T (currentTime video) (lastVideoTime s)) as [Heq | Hne].
    + rewrite (detect_same_frame _ _ _ Heq). cbn. split; [split |]; auto.
    + rewrite (detect_new_frame _ _ _ _ Hrec Hne). cbn [fst snd lastVideoTime].
      split; [| auto]. unfold polled.
      rewrite effects_emit, processed_app. cbn [processed lastVideoTime].
      split.
      * apply sorted_snoc; [exact Hsorted |].
        eapply List.Forall_impl; [| exact Hbound]. cbn. intros u Hu. lra.
      * apply Forall_app. split.
        -- eapply List.Forall_impl; [| exact Hbound]. cbn. intros u Hu. lra.
        -- constructor; [cbn; lra | constructor].
  - rewrite (detect_not_loaded _ _ _ Hrec). cbn. split; [split |]; auto.
Qed.

Lemma detect_all_polled videos : forall w s,
  polled w s ->
  StronglySorted Rle (lastVideoTime s :: map currentTime videos) ->
  polled (fst (detect_all w s videos)) (snd (detect_all w s videos)).
Proof.
  induction videos as [| video videos IH]; intros w s Hpolled Hmono.
  - exact Hpolled.
  - cbn [detect_all].
    inversion Hmono as [| ? ? Htail Hhead]; subst.
    cbn [map] in Hhead, Htail.
    inversion Hhead as [| ? ? Hle Hrest]; subst.
    inversion Htail as [| ? ? Htail' Hhead']; subst.
    destruct (detect_polled w s video Hpolled Hle) as [Hp Hlast].
    destruct (detect w s video) as [[w' s'] r]. cbn [fst snd] in Hp, Hlast.
    apply IH; [exact Hp |].
    constructor; [exact Htail' |].
    destruct Hlast as [-> | ->]; assumption.
Qed.

(** C8: whenever the timestamp of the video frame equals the one remembered
    from the last processed frame, [detect] skips detection: it returns null,
    does not call the recognizer and changes nothing.  Hence, for a video
    whose timestamps never decrease, the recognizer runs on strictly
    increasing timestamps: no frame is processed twice. *)
Theorem detect_skips_seen_frame w s :
  (forall video, currentTime video = lastVideoTime s ->
     detect w s video = (w, s, None)) /\
  (forall videos,
     processed (effects w) = [] ->
     StronglySorted Rle (lastVideoTime s :: map currentTime videos) ->
     let w' := fst (detect_all w s videos) in
     StronglySorted Rlt (processed (effects w')) /\ NoDup (processed (effects w'))).
Proof.
  split.
  - intros video. apply detect_same_frame.
  - intros videos Hnone Hmono w'.
    assert (Hpolled : polled w s).
    { unfold polled. rewrite Hnone. split; constructor. }
    destruct (detect_all_polled videos w s Hpolled Hmono) as [Hsorted _].
    fold w' in Hsorted. split; [exact Hsorted |].
    clear - Hsorted. induction Hsorted as [| u l Hl IH Hu]; constructor; auto.
    intros Hin. rewrite Forall_forall in Hu. apply Hu in Hin. lra.
Qed.

Lemma detect_skips_seen_frame_witness :
  detect Demo.world DemoApp.service (DemoApp.frame_at (-1))
    = (Demo.world, DemoApp.service, None) /\
  NoDup (processed (effects (fst (detect_all Demo.world DemoApp.service
           [DemoApp.frame_at 0; DemoApp.frame_at 0; DemoApp.frame_at 1])))).
Proof.
  destruct (detect_skips_seen_frame Demo.world DemoApp.service) as [Hskip Honce].
  split.
  - apply Hskip. reflexivity.
  - apply Honce; [reflexivity |].
    repeat (apply SSorted_cons || apply SSorted_nil
            || apply List.Forall_cons || apply List.Forall_nil);
      cbn; lra.
Defined.

End VisionFacts.

(** ** The gesture-to-state mapper, [predictWebcam] *)

Module MapperLoopFacts.

Import Constants Host VisionService App Observed JsFacts VisionFacts.

Lemma morph_requests_app es1 es2 :
  morph_requests (es1 ++ es2) = morph_requests es1 ++ morph_requests es2.
Proof.
  induction es1 as [| e es1 IH]; [reflexivity |].
  destruct e as [| | | | | | | | [] vars | | | | |]; cbn; rewrite ?IH;
    reflexivity.
Qed.



(** The detector call changes no request made to gsap. *)
Lemma detect_morph_requests w s video :
  morph_requests (effects (fst (fst (detect w s video))))
  = morph_requests (effects w).
Proof.
  unfold detect. destruct (gestureRecognizer s); [| reflexivity].
  destruct (Js.strict_ne _ _); [| reflexivity].
  cbn [fst]. rewrite effects_emit, morph_requests_app. cbn. apply app_nil_r.
Qed.

Lemma updateHandPosition_morph_requests w sc px py :
  morph_requests (effects (fst (SceneController.updateHandPosition w sc px py)))
  = morph_requests (effects w) /\
  snd (SceneController.updateHandPosition w sc px py) = sc.
Proof.
  unfold SceneController.updateHandPosition.
  destruct (SceneController.particles sc); cbn [fst snd]; [| auto].
  rewrite effects_emit, morph_requests_app. cbn. rewrite app_nil_r. auto.
Qed.

(** The gesture branch: the state it leaves and the requests it makes. *)
Lemma gesture_logic_spec cfg w a sc results thumbTip indexTip :
  let r := gesture_logic cfg w a sc results thumbTip indexTip in
  particleStateRef (snd r)
  = match classified cfg results thumbTip indexTip with
    | Some target => target
    | None => particleStateRef a
    end /\
  morph_requests (effects (fst r))
  = morph_requests (effects w)
    ++ match classified cfg results thumbTip indexTip with
       | Some target =>
           if ParticleState_eqb (particleStateRef a) target then []
           else [request_for target]
       | None => []
       end.
Proof.
  unfold gesture_logic, classified.
  destruct (Js.lt _ _); [| destruct (_ || _)].
  all: destruct (particleStateRef a) eqn:Href.
  all: cbn; rewrite ?Href, ?morph_requests_app; cbn; rewrite ?app_nil_r; auto.
Qed.

(** A call of [predictWebcam] that sees a hand runs the whole body. *)
Lemma predictWebcam_hand cfg w a results thumbTip indexTip :
  hand_present w a results thumbTip indexTip ->
  exists w1 a1 sc h,
    morph_requests (effects w1) = morph_requests (effects w) /\
    particleStateRef a1 = particleStateRef a /\
    predictWebcam cfg w a
    = let r := gesture_logic cfg w1 a1 sc results thumbTip indexTip in
      Returned
        {| innerWidth := innerWidth (fst r); innerHeight := innerHeight (fst r);
           now := now (fst r); lastHandle := h; random := random (fst r);
           randomCalls := randomCalls (fst r);
           effects := effects (fst r)
                      ++ [RequestAnimationFrame PredictWebcamCallback h] |}
        (set_requestRef (snd r) (Some h)).
Proof.
  intros (video & sc & hand & others & center
          & Hvideo & Hsc & Hdet & Hlm & H9 & H4 & H8).
  unfold predictWebcam. rewrite Hvideo, Hsc.
  pose proof (detect_morph_requests w (visionService a) video) as Hreq.
  destruct (detect w (visionService a) video) as [[w1 vs] r] eqn:Edet.
  cbn [fst snd] in Hdet, Hreq. subst r.
  destruct results as [lms gs]. cbn [landmarks] in Hlm. subst lms.
  rewrite H9.
  destruct (updateHandPosition_morph_requests w1 sc (x center) (y center))
    as [Hreq2 Hsc2].
  destruct (SceneController.updateHandPosition w1 sc (x center) (y center))
    as [w2 sc2]. cbn [fst snd] in Hreq2, Hsc2. subst sc2.
  rewrite H4, H8.
  destruct (gesture_logic _ _ _ _ _ _ _) as [w3 a3] eqn:Eg.
  eexists w2, _, sc, _. split; [congruence |]. split; [| rewrite Eg; reflexivity].
  reflexivity.
Qed.

Lemma predictWebcam_step cfg w a results thumbTip indexTip :
  hand_present w a results thumbTip indexTip ->
  let o := predictWebcam cfg w a in
  returned o = true /\
  particleStateRef (app_of o)
  = match classified cfg results thumbTip indexTip with
    | Some target => target
    | None => particleStateRef a
    end /\
  morph_requests (effects (world_of o))
  = morph_requests (effects w)
    ++ match classified cfg results thumbTip indexTip with
       | Some target =>
           if ParticleState_eqb (particleStateRef a) target then []
           else [request_for target]
       | None => []
       end.
Proof.
  intros Hhand.
  destruct (predictWebcam_hand cfg w a results thumbTip indexTip Hhand)
    as (w1 & a1 & sc & h & Hreq & Href & ->).
  destruct (gesture_logic_spec cfg w1 a1 sc results thumbTip indexTip)
    as [Hstate Hmorph].
  cbv zeta. cbn [returned app_of world_of set_requestRef particleStateRef effects].
  rewrite morph_requests_app, Hmorph, Hstate, Hreq, Href. cbn [morph_requests].
  rewrite app_nil_r. auto.
Qed.





Lemma demo_hand_present w a last time sc :
  videoRef a = Some (DemoApp.frame_at time) ->
  sceneControllerRef a = Some sc ->
  visionService a = {| gestureRecognizer := Some DemoApp.recognizer;
                       lastVideoTime := last |} ->
  time <> last ->
  hand_present w a DemoApp.pinch
    (DemoApp.landmark 0.5 0.5 0) (DemoApp.landmark 0.53 0.5 0).
Proof.
  intros Hv Hs Hvs Hne.
  exists (DemoApp.frame_at time), sc,
    (DemoApp.hand_of (DemoApp.landmark 0.5 0.5 0) (DemoApp.landmark 0.53 0.5 0)),
    [], (DemoApp.landmark 0.5 0.5 0).
  repeat split; auto.
  rewrite Hvs.
  rewrite (detect_new_frame w _ DemoApp.recognizer) by (auto; exact Hne).
  reflexivity.
Qed.








End MapperLoopFacts.

(** ** Landmark depth does not reach the classifier *)

Module DepthFacts.

Import Constants Host VisionService App Observed JsFacts VisionFacts
       MapperLoopFacts.

Lemma pinch_distance_xy t1 i1 t2 i2 :
  xy t1 = xy t2 -> xy i1 = xy i2 ->
  pinch_distance t1 i1 = pinch_distance t2 i2.
Proof.
  unfold xy, pinch_distance. intros Ht Hi.
  injection Ht as -> ->. injection Hi as -> ->. reflexivity.
Qed.

Lemma same_xy_lookup (hand1 hand2 : list NormalizedLandmark) k :
  map xy hand1 = map xy hand2 ->
  match hand1 !! k, hand2 !! k with
  | Some l1, Some l2 => xy l1 = xy l2
  | None, None => True
  | _, _ => False
  end.
Proof.
  intros Hmap.
  assert (H : (map xy hand1) !! k = (map xy hand2) !! k) by (rewrite Hmap; reflexivity).
  change (map xy hand1) with (xy <$> hand1) in H.
  change (map xy hand2) with (xy <$> hand2) in H.
  rewrite !list_lookup_fmap in H.
  destruct (hand1 !! k), (hand2 !! k); cbn in H; try discriminate; auto.
  congruence.
Qed.

(** The gesture branch reads the application state only through [visible],
    the fingertips only through their distance, and the result only through
    the categories of the first hand. *)
Lemma gesture_logic_visible cfg w a1 a2 sc r1 r2 t1 i1 t2 i2 :
  visible a1 = visible a2 ->
  pinch_distance t1 i1 = pinch_distance t2 i2 ->
  detectedGestures r1 = detectedGestures r2 ->
  fst (gesture_logic cfg w a1 sc r1 t1 i1)
    = fst (gesture_logic cfg w a2 sc r2 t2 i2) /\
  visible (snd (gesture_logic cfg w a1 sc r1 t1 i1))
    = visible (snd (gesture_logic cfg w a2 sc r2 t2 i2)).
Proof.
  intros Hv Hd Hg. unfold gesture_logic. rewrite Hd, Hg.
  unfold visible in Hv. injection Hv as E1 E2 E3 E4 E5 E6 E7 E8.
  rewrite E3.
  destruct (Js.lt _ _); [| destruct (_ || _)].
  all: destruct (particleStateRef a2) eqn:Href.
  all: unfold visible; cbn;
    rewrite ?E1, ?E2, ?E3, ?E4, ?E5, ?E6, ?E7, ?E8, ?Href; auto.
Qed.

Lemma schedule_visible w a1 a2 :
  visible a1 = visible a2 ->
  returned (schedule w a1) = returned (schedule w a2) /\
  world_of (schedule w a1) = world_of (schedule w a2) /\
  visible (app_of (schedule w a1)) = visible (app_of (schedule w a2)).
Proof.
  intros Hv. unfold schedule, visible in *. cbn.
  injection Hv as E1 E2 E3 E4 E5 E6 E7 E8.
  rewrite ?E1, ?E2, ?E3, ?E4, ?E5, ?E6, ?E7. auto.
Qed.

(** C10: two detector results that agree on the x and y of every landmark
    and on the gesture categories, whatever the z components, lead
    [predictWebcam] to the same pinch distance, the same target state and the
    same status string; indeed to the same calls on the host and the same
    application state. *)
Theorem predictWebcam_ignores_depth cfg w a rec1 rec2 :
  (forall video time,
     same_xy (recognizeForVideo rec1 video time)
             (recognizeForVideo rec2 video time)) ->
  let o1 := predictWebcam cfg w (with_recognizer a rec1) in
  let o2 := predictWebcam cfg w (with_recognizer a rec2) in
  (forall t1 i1 t2 i2, xy t1 = xy t2 -> xy i1 = xy i2 ->
     pinch_distance t1 i1 = pinch_distance t2 i2) /\
  particleStateRef (app_of o1) = particleStateRef (app_of o2) /\
  debugText (app_of o1) = debugText (app_of o2) /\
  world_of o1 = world_of o2 /\
  returned o1 = returned o2 /\
  visible (app_of o1) = visible (app_of o2).
Proof.
  intros Hsame o1 o2.
  split; [exact pinch_distance_xy |].
  assert (H : returned o1 = returned o2 /\ world_of o1 = world_of o2 /\
              visible (app_of o1) = visible (app_of o2)).
  2:{ destruct H as (Hr & Hw & Hv). pose proof Hv as Hv'.
      unfold visible in Hv'. injection Hv' as _ _ Href Htext _ _ _ _.
      repeat split; assumption. }
  subst o1 o2. unfold predictWebcam, with_recognizer.
  cbn [videoRef sceneControllerRef visionService set_visionService].
  destruct (videoRef a) as [video |] eqn:Hvideo; [| cbn; rewrite ?Hvideo; auto].
  destruct (sceneControllerRef a) as [sc |] eqn:Hsc; [| cbn; rewrite ?Hsc; auto].
  unfold detect. cbn [gestureRecognizer lastVideoTime].
  destruct (Js.strict_ne _ _).
  2:{ apply schedule_visible. unfold visible. cbn. reflexivity. }
  specialize (Hsame video (now w)).
  destruct (recognizeForVideo rec1 video (now w)) as [lms1 gs1].
  destruct (recognizeForVideo rec2 video (now w)) as [lms2 gs2].
  destruct Hsame as [Hlms Hgs]. cbn [landmarks gestures] in Hlms, Hgs. subst gs2.
  destruct lms1 as [| hand1 rest1], lms2 as [| hand2 rest2]; try discriminate.
  { apply schedule_visible. unfold visible. cbn. reflexivity. }
  cbn [map] in Hlms. injection Hlms as Hhand _.
  pose proof (same_xy_lookup hand1 hand2 9 Hhand) as H9.
  pose proof (same_xy_lookup hand1 hand2 4 Hhand) as H4.
  pose proof (same_xy_lookup hand1 hand2 8 Hhand) as H8.
  destruct (hand1 !! 9%nat) as [c1 |], (hand2 !! 9%nat) as [c2 |];
    try contradiction.
  2:{ cbn. unfold visible. cbn. auto. }
  unfold xy in H9. injection H9 as -> ->.
  destruct (SceneController.updateHandPosition _ sc (x c2) (y c2)) as [w2 sc2].
  destruct (hand1 !! 4%nat) as [t1 |], (hand2 !! 4%nat) as [t2 |];
    try contradiction.
  2:{ cbn. unfold visible. cbn. auto. }
  destruct (hand1 !! 8%nat) as [i1 |], (hand2 !! 8%nat) as [i2 |];
    try contradiction.
  2:{ cbn. unfold visible. cbn. auto. }
  match goal with
  | |- context [gesture_logic cfg w2 ?a1 sc2 ?r1 t1 i1] =>
      match goal with
      | |- context [gesture_logic cfg w2 ?a2 sc2 ?r2 t2 i2] =>
          destruct (gesture_logic_visible cfg w2 a1 a2 sc2 r1 r2 t1 i1 t2 i2)
            as [Hw Hv];
          [reflexivity | apply pinch_distance_xy; assumption | reflexivity |];
          destruct (gesture_logic cfg w2 a1 sc2 r1 t1 i1) as [w3 a3];
          destruct (gesture_logic cfg w2 a2 sc2 r2 t2 i2) as [w3' a3']
      end
  end.
  cbn [fst snd] in Hw, Hv. subst w3'. apply schedule_visible, Hv.
Qed.

Lemma predictWebcam_ignores_depth_witness :
  debugText (app_of (predictWebcam shipped Demo.world
                       (with_recognizer DemoApp.running DemoApp.recognizer)))
  = debugText (app_of (predictWebcam shipped Demo.world
                         (with_recognizer DemoApp.running DemoApp.deep_recognizer))).
Proof.
  refine (proj1 (proj2 (proj2
            (predictWebcam_ignores_depth shipped Demo.world DemoApp.running
               DemoApp.recognizer DemoApp.deep_recognizer _)))).
  intros video time. split; reflexivity.
Defined.

End DepthFacts.

(** ** Teardown, [cleanup] *)

Module TeardownFacts.

Import Constants Host SceneController App Observed ConstructorFacts VisionFacts.

Lemma cleanup_effects w s :
  effects (fst (cleanup w s)) = effects w ++ release_calls s /\
  snd (cleanup w s) = s.
Proof.
  unfold cleanup, release_calls. cbn [fst snd].
  destruct (Js.truthy (frameId s)); rewrite !effects_emit, <- ?app_assoc; auto.
Qed.

(** C9 fails on the controller that the constructor returns: the second
    [cleanup] cancels frame 1 again and disposes of the renderer again. *)
Lemma second_cleanup_releases_again :
  let built := new Demo.two Demo.world in
  let once := cleanup (fst built) (snd built) in
  let twice := cleanup (fst once) (snd once) in
  effects (fst twice)
  = effects (fst once)
    ++ [CancelAnimationFrame 1; RemoveEventListener "resize"; RendererDispose] /\
  effects (fst twice) <> effects (fst once).
Proof.
  intros built once twice.
  assert (H : effects (fst twice)
              = effects (fst once)
                ++ [CancelAnimationFrame 1; RemoveEventListener "resize";
                    RendererDispose]).
  { subst twice once.
    destruct (cleanup_effects (fst built) (snd built)) as [_ Hs].
    destruct (cleanup_effects (fst (cleanup (fst built) (snd built)))
                (snd (cleanup (fst built) (snd built)))) as [He _].
    rewrite He, Hs. unfold release_calls. subst built.
    rewrite new_frameId. reflexivity. }
  split; [exact H |].
  rewrite H. intros E. apply (f_equal (@Datatypes.length Effect)) in E.
  rewrite length_app in E. cbn in E. lia.
Qed.

(** C9, as the code has it: [cleanup] always completes and leaves the
    controller as it was, so a second call completes too, and it makes the
    same release calls as the first: the frame handle is cancelled again (the
    field is never cleared) and the renderer is disposed of again.  When the
    session never started (no controller, no scheduled frame), unmounting
    releases nothing. *)
Theorem cleanup_twice_repeats w s :
  let once := cleanup w s in
  let twice := cleanup (fst once) (snd once) in
  snd once = s /\ snd twice = s /\
  effects (fst once) = effects w ++ release_calls s /\
  effects (fst twice) = effects w ++ release_calls s ++ release_calls s /\
  In RendererDispose (release_calls s) /\
  (forall h, frameId s = Some (S h) ->
     In (CancelAnimationFrame (S h)) (release_calls s)) /\
  (forall a, sceneControllerRef a = None -> requestRef a = None ->
     unmount w a = (w, a)).
Proof.
  intros once twice. subst twice once.
  destruct (cleanup_effects w s) as [He Hs]. rewrite Hs.
  destruct (cleanup_effects (fst (cleanup w s)) s) as [He' Hs'].
  rewrite He', Hs', He.
  repeat split; auto.
  - rewrite <- app_assoc. reflexivity.
  - unfold release_calls. apply in_or_app. right. cbn. auto.
  - intros h Hh. unfold release_calls. rewrite Hh. cbn. auto.
  - intros a Hsc Hreq. unfold unmount. rewrite Hsc, Hreq. reflexivity.
Qed.

Lemma cleanup_twice_repeats_witness :
  In (CancelAnimationFrame 1)
     (release_calls (snd (new Demo.two Demo.world))) /\
  unmount Demo.world App.initial = (Demo.world, App.initial).
Proof.
  destruct (cleanup_twice_repeats Demo.world (snd (new Demo.two Demo.world)))
    as (_ & _ & _ & _ & _ & Hcancel & Hnever).
  split.
  - apply (Hcancel 0%nat). apply (new_frameId Demo.two Demo.world).
  - apply Hnever; reflexivity.
Defined.

End TeardownFacts.

(** ** The render loop over many frames *)

Module FrameLoopFacts.

Import Constants Three Host SceneController JsFacts Derived Observed Lifecycle
       AnimateFacts ConstructorFacts VisionFacts.

Lemma animate_world cfg w s :
  effects (fst (animate cfg w s))
  = effects w ++ [RequestAnimationFrame AnimateCallback (S (lastHandle w));
                  ComposerRender] /\
  lastHandle (fst (animate cfg w s)) = S (lastHandle w) /\
  randomCalls (fst (animate cfg w s)) = randomCalls w.
Proof.
  unfold animate, composer_render. cbn.
  rewrite <- app_assoc. destruct (particles s); cbn; auto.
Qed.

Lemma render_frames_cons cfg f factors w s :
  render_frames cfg (f :: factors) w s
  = render_frames cfg factors
      (fst (animate cfg w (set_explosionFactor s f)))
      (snd (animate cfg w (set_explosionFactor s f))).
Proof.
  cbn [render_frames]. destruct (animate cfg w (set_explosionFactor s f)).
  reflexivity.
Qed.



(** X2: [animate] overwrites the whole buffer: what [currentPositions] holds
    after a frame depends on the two source arrays and the factor only, not on
    what it held before. *)
Theorem animate_overwrites cfg w1 w2 s1 s2 p1 p2 :
  particles s1 = Some p1 -> particles s2 = Some p2 ->
  sized cfg s1 -> sized cfg s2 ->
  spherePositions s1 = spherePositions s2 ->
  explosionPositions s1 = explosionPositions s2 ->
  explosionFactor s1 = explosionFactor s2 ->
  currentPositions (snd (animate cfg w1 s1))
  = currentPositions (snd (animate cfg w2 s2)).
Proof.
  intros Hp1 Hp2 Hs1 Hs2 Hsph Hexp Hf.
  pose proof (animate_sized cfg w1 s1 Hs1) as (_ & _ & Hl1).
  pose proof (animate_sized cfg w2 s2 Hs2) as (_ & _ & Hl2).
  apply list_eq. intros k.
  destruct (Nat.lt_ge_cases k (PARTICLE_COUNT cfg * 3)) as [Hk | Hk].
  - rewrite (animate_lookup cfg w1 s1 p1 k Hp1 Hs1 Hk).
    rewrite (animate_lookup cfg w2 s2 p2 k Hp2 Hs2 Hk).
    unfold lerp. rewrite Hsph, Hexp, Hf. reflexivity.
  - rewrite !lookup_ge_None_2 by lia. reflexivity.
Qed.

Lemma animate_overwrites_witness :
  currentPositions (snd (animate Demo.two Demo.world Demo.halfway))
  = currentPositions
      (snd (animate Demo.two Demo.world
              (snd (animate Demo.two Demo.world Demo.halfway)))).
Proof.
  destruct (animate_preserves_sources Demo.two Demo.world Demo.halfway)
    as (Hs & He & Hf).
  exact (animate_overwrites Demo.two Demo.world Demo.world Demo.halfway _
           Demo.cloud _ eq_refl
           (animate_particles Demo.two Demo.world Demo.halfway Demo.cloud eq_refl)
           DemoFacts.halfway_sized
           (animate_sized Demo.two Demo.world Demo.halfway
              DemoFacts.halfway_sized)
           (eq_sym Hs) (eq_sym He) (eq_sym Hf)).
Defined.

Lemma render_frames_handles cfg factors : forall w s,
  lastHandle (fst (render_frames cfg factors w s))
  = (lastHandle w + Datatypes.length factors)%nat /\
  (factors <> [] \/ frameId s = Some (lastHandle w) ->
   frameId (snd (render_frames cfg factors w s))
   = Some (lastHandle (fst (render_frames cfg factors w s)))).
Proof.
  induction factors as [| f factors IH]; intros w s.
  - cbn. split; [lia |]. intros [H | H]; [contradiction | exact H].
  - rewrite render_frames_cons.
    destruct (animate_world cfg w (set_explosionFactor s f)) as (_ & Hh & _).
    pose proof (animate_frameId cfg w (set_explosionFactor s f)) as Hid.
    destruct (IH (fst (animate cfg w (set_explosionFactor s f)))
                 (snd (animate cfg w (set_explosionFactor s f)))) as [Hl Hf].
    split.
    + rewrite Hl, Hh. cbn. lia.
    + intros _. apply Hf. right. rewrite Hid, Hh. reflexivity.
Qed.

(** X3: after one frame or more, [frameId] is the handle of the frame
    requested last, handles having grown by one per frame; so a [cleanup] at
    that point cancels exactly the pending frame, then removes the listener
    and disposes of the renderer. *)
Theorem render_frames_then_cleanup cfg factors w s :
  factors <> [] ->
  let r := render_frames cfg factors w s in
  lastHandle (fst r) = (lastHandle w + Datatypes.length factors)%nat /\
  frameId (snd r) = Some (lastHandle (fst r)) /\
  effects (fst (cleanup (fst r) (snd r)))
  = effects (fst r)
    ++ [CancelAnimationFrame (lastHandle (fst r));
        RemoveEventListener "resize"; RendererDispose].
Proof.
  intros Hne r. subst r.
  destruct (render_frames_handles cfg factors w s) as [Hl Hf].
  specialize (Hf (or_introl Hne)).
  split; [exact Hl |]. split; [exact Hf |].
  unfold cleanup. cbn [fst]. rewrite Hf.
  destruct (lastHandle (fst (render_frames cfg factors w s))) as [| h] eqn:E.
  - destruct factors; [contradiction | cbn in Hl; lia].
  - cbn. rewrite <- !app_assoc. reflexivity.
Qed.

Lemma render_frames_then_cleanup_witness :
  let r := render_frames Demo.two [0.25; 0.5] Demo.world Demo.halfway in
  frameId (snd r) = Some (lastHandle (fst r)) /\ lastHandle (fst r) = 2%nat.
Proof.
  destruct (render_frames_then_cleanup Demo.two [0.25; 0.5] Demo.world
              Demo.halfway ltac:(discriminate)) as (Hl & Hf & _).
  split; [exact Hf | exact Hl].
Defined.

End FrameLoopFacts.

(** ** The constructor and the generated shapes *)

Module GeneratorFacts.

Import Constants Three Host SceneController JsFacts Derived Observed Lifecycle
       AnimateFacts ShapeFacts ConstructorFacts VisionFacts FrameLoopFacts.

Lemma initParticles_world cfg w s :
  fst (initParticles cfg w s) = fst (generation_loop cfg (PARTICLE_COUNT cfg) (w, s)).
Proof.
  unfold initParticles. fold (generation_loop cfg (PARTICLE_COUNT cfg) (w, s)).
  destruct (generation_loop _ _ _). reflexivity.
Qed.

(** The assembled array after the loop is a function of the assembled array
    before it. *)
Lemma generation_loop_sphere cfg n : forall w1 s1 w2 s2,
  spherePositions s1 = spherePositions s2 ->
  spherePositions (snd (generation_loop cfg n (w1, s1)))
  = spherePositions (snd (generation_loop cfg n (w2, s2))).
Proof.
  induction n as [| n IH]; intros w1 s1 w2 s2 Heq; [exact Heq |].
  rewrite !generation_loop_S. specialize (IH w1 s1 w2 s2 Heq).
  destruct (generation_loop cfg n (w1, s1)) as [wa sa].
  destruct (generation_loop cfg n (w2, s2)) as [wb sb].
  cbn [snd] in IH. unfold initParticles_body, Math_random. cbn.
  rewrite IH. reflexivity.
Qed.

Lemma frame_color_start : frame_color 0 = 0x8b5cf6%Z.
Proof.
  unfold frame_color. destruct (Js.gt 0 0.5) eqn:E; [| reflexivity].
  apply gt_true in E. lra.
Qed.

(** The constructor, as the composition of its steps. *)
Lemma new_steps cfg w :
  let s0 := {| camera := set_position
                 (newPerspectiveCamera 75 (innerWidth w / innerHeight w) 0.1 100)
                 (vec3 0 0 8);
               bloomStrength := 1; particles := None;
               spherePositions := replicate (PARTICLE_COUNT cfg * 3) 0;
               explosionPositions := replicate (PARTICLE_COUNT cfg * 3) 0;
               currentPositions := replicate (PARTICLE_COUNT cfg * 3) 0;
               explosionFactor := 0; frameId := None |} in
  let w1 := emit (RendererSetSize (innerWidth w) (innerHeight w)) w in
  new cfg w
  = animate cfg (emit (AddEventListener "resize") (fst (initParticles cfg w1 s0)))
            (snd (initParticles cfg w1 s0)).
Proof.
  intros s0 w1. unfold new.
  match goal with
  | |- context [initParticles cfg ?a ?b] => change b with s0; change a with w1
  end.
  destruct (initParticles cfg w1 s0). reflexivity.
Qed.

(** X4: the controller that the constructor returns has its three arrays
    sized for [PARTICLE_COUNT] points, factor 0, the current buffer equal to
    the assembled set, the cloud at the origin coloured 0x8b5cf6 and already
    turned by one frame, and the first frame handle pending; building it
    draws three samples per particle and makes exactly four recorded host
    calls: one [setSize], the resize listener, the frame request and one
    render. *)
Theorem new_postconditions cfg w :
  let r := new cfg w in
  sized cfg (snd r) /\
  explosionFactor (snd r) = 0 /\
  currentPositions (snd r) = spherePositions (snd r) /\
  (exists p, particles (snd r) = Some p /\
             points_position p = vec3 0 0 0 /\
             rotation_y p = 0.002 /\ rotation_z p = 0.001 /\
             color p = 0x8b5cf6%Z) /\
  frameId (snd r) = Some (S (lastHandle w)) /\
  randomCalls (fst r) = (randomCalls w + PARTICLE_COUNT cfg * 3)%nat /\
  effects (fst r)
  = effects w
    ++ [RendererSetSize (innerWidth w) (innerHeight w);
        AddEventListener "resize";
        RequestAnimationFrame AnimateCallback (S (lastHandle w));
        ComposerRender].
Proof.
  intros r. subst r. pose proof (new_steps cfg w) as Hnew. cbv zeta in Hnew.
  set (s0 := {| camera := _ |}) in Hnew.
  set (w1 := emit (RendererSetSize _ _) w) in Hnew.
  assert (Hs0 : sized cfg s0) by (repeat split; apply length_replicate).
  destruct (initParticles_frame cfg w1 s0) as (_ & Hf & Hp & Hh).
  destruct (initParticles_arrays cfg w1 s0) as (Hsa & Hea & Hca).
  pose proof (initParticles_sized cfg w1 s0 Hs0) as Hsz.
  destruct Hs0 as (Hl1 & Hl2 & Hl3).
  destruct (generation_loop_spec cfg (PARTICLE_COUNT cfg) w1 s0
              ltac:(lia) ltac:(lia) ltac:(lia))
    as (Hrc & _ & Heff & _).
  rewrite <- initParticles_world in Hrc, Heff.
  set (ip := initParticles cfg w1 s0) in *.
  set (w2 := emit (AddEventListener "resize") (fst ip)) in *.
  destruct (animate_world cfg w2 (snd ip)) as (Hae & Hah & Har).
  destruct (animate_preserves_sources cfg w2 (snd ip)) as (Hps & Hpe & Hpf).
  pose proof (animate_sized cfg w2 (snd ip) Hsz) as Hsz'.
  rewrite Hnew.
  split; [exact Hsz' |].
  split; [rewrite Hpf, Hf; reflexivity |].
  split.
  { rewrite Hps. apply list_eq. intros k.
    destruct Hsz as (Hz1 & Hz2 & Hz3).
    destruct (Nat.lt_ge_cases k (PARTICLE_COUNT cfg * 3)) as [Hk | Hk].
    - rewrite (animate_lookup cfg w2 (snd ip) _ k Hp
                 (conj Hz1 (conj Hz2 Hz3)) Hk).
      rewrite (lookup_get (spherePositions (snd ip))) by lia.
      unfold lerp. rewrite Hf. change (explosionFactor s0) with 0.
      apply f_equal. ring.
    - destruct Hsz' as (_ & _ & Hz3').
      rewrite !lookup_ge_None_2 by lia. reflexivity. }
  split.
  { eexists. split; [apply (animate_particles cfg w2 (snd ip) _ Hp) |].
    cbn [points_position rotation_y rotation_z color].
    rewrite Hf. change (explosionFactor s0) with 0. rewrite frame_color_start.
    repeat split; lra. }
  split; [rewrite animate_frameId; subst w2; cbn [lastHandle emit]; rewrite Hh;
          reflexivity |].
  split; [rewrite Har; subst w2; cbn [randomCalls emit]; rewrite Hrc;
          reflexivity |].
  rewrite Hae. subst w2. cbn [effects lastHandle emit]. rewrite Hh, Heff.
  subst w1. cbn [effects lastHandle emit]. rewrite <- !app_assoc. reflexivity.
Qed.

(** X5: the assembled layout is deterministic: whatever the random sampler
    returns and whatever the host has done before, [initParticles] leaves the
    same assembled array. *)
Theorem initParticles_assembled_deterministic cfg w1 w2 s :
  spherePositions (snd (initParticles cfg w1 s))
  = spherePositions (snd (initParticles cfg w2 s)).
Proof.
  destruct (initParticles_arrays cfg w1 s) as (-> & _ & _).
  destruct (initParticles_arrays cfg w2 s) as (-> & _ & _).
  apply generation_loop_sphere. reflexivity.
Qed.





End GeneratorFacts.

(** ** The spatial mapper across inputs and resizes *)

Module SpatialFacts.

Import Constants Three Host SceneController JsFacts Derived CameraFacts
       ConstructorFacts VisionFacts.





End SpatialFacts.

(** ** The detector wrapper across calls *)

Module DetectorFacts.

Import Host VisionService Observed AppLifecycle JsFacts VisionFacts.

(** X10: once a recognizer is loaded, a call of [detect] leaves the
    timestamp of its video frame remembered, whether it ran the recognizer or
    not; polling again while the video still shows that timestamp returns
    null, runs nothing and changes nothing. *)
Theorem detect_then_repoll w s rec video :
  gestureRecognizer s = Some rec ->
  let w1 := fst (fst (detect w s video)) in
  let s1 := snd (fst (detect w s video)) in
  lastVideoTime s1 = currentTime video /\
  gestureRecognizer s1 = Some rec /\
  forall video', currentTime video' = currentTime video ->
    detect w1 s1 video' = (w1, s1, None).
Proof.
  intros Hrec w1 s1.
  assert (H : lastVideoTime s1 = currentTime video /\
              gestureRecognizer s1 = Some rec).
  { subst s1.
    destruct (Req_dec_T (currentTime video) (lastVideoTime s)) as [Heq | Hne].
    - rewrite (detect_same_frame _ _ _ Heq). cbn. auto.
    - rewrite (detect_new_frame _ _ _ _ Hrec Hne). cbn. auto. }
  destruct H as [Hlast Hrec1]. repeat split; auto.
  intros video' Hsame. apply detect_same_frame. congruence.
Qed.

Lemma detect_then_repoll_witness :
  let r := detect Demo.world DemoApp.service (DemoApp.frame_at 0) in
  detect (fst (fst r)) (snd (fst r)) (DemoApp.frame_at 0)
  = (fst (fst r), snd (fst r), None).
Proof.
  destruct (detect_then_repoll Demo.world DemoApp.service DemoApp.recognizer
              (DemoApp.frame_at 0) eq_refl) as (_ & _ & Hagain).
  apply Hagain. reflexivity.
Defined.

(** X11: while no recognizer is loaded, polling is inert: over any sequence
    of frames [detect] calls nothing on the host and leaves the wrapper as it
    was, in particular the remembered timestamp. *)
Theorem detect_all_not_loaded videos : forall w s,
  gestureRecognizer s = None -> detect_all w s videos = (w, s).
Proof.
  induction videos as [| video videos IH]; intros w s Hrec; [reflexivity |].
  cbn [detect_all]. rewrite (detect_not_loaded _ _ _ Hrec). apply IH, Hrec.
Qed.

Lemma detect_all_not_loaded_witness :
  detect_all Demo.world VisionService.initial
    [DemoApp.frame_at 0; DemoApp.frame_at 1]
  = (Demo.world, VisionService.initial).
Proof.
  apply (detect_all_not_loaded _ Demo.world VisionService.initial). reflexivity.
Defined.

(** X12: the guard of [initialize] protects calls made one after the other
    only.  A call made once an earlier one has resolved creates nothing and
    the first recognizer stays; of two calls made before either resolves both
    pass the guard and both create a recognizer, and the one that resolves
    last is the one kept.  A call that runs alone is the single step
    [initialize]; the remembered timestamp is never touched. *)
Theorem initialize_overlap first second s :
  gestureRecognizer s = None ->
  snd (initialize_over [Called 1; Resolved 1 first] [] s) = initialize first s /\
  snd (initialize_over [Called 1; Resolved 1 first; Called 2; Resolved 2 second]
         [] s)
  = initialize first s /\
  initialize_over [Called 1; Called 2] [] s = ([2; 1]%nat, s) /\
  gestureRecognizer
    (snd (initialize_over
            [Called 1; Called 2; Resolved 1 first; Resolved 2 second] [] s))
  = Some second /\
  gestureRecognizer
    (snd (initialize_over
            [Called 1; Called 2; Resolved 2 second; Resolved 1 first] [] s))
  = Some first /\
  forall moments creating,
    lastVideoTime (snd (initialize_over moments creating s)) = lastVideoTime s.
Proof.
  intros Hnone.
  assert (Hb : initialize_begins s = true)
    by (unfold initialize_begins; rewrite Hnone; reflexivity).
  assert (Hi : initialize first s = initialize_resolves first s)
    by (unfold initialize; rewrite Hnone; reflexivity).
  repeat apply conj.
  - cbn. rewrite Hb. cbn. symmetry. exact Hi.
  - cbn. rewrite Hb. cbn. symmetry. exact Hi.
  - cbn. rewrite Hb. reflexivity.
  - cbn. rewrite Hb. reflexivity.
  - cbn. rewrite Hb. reflexivity.
  - intros moments. generalize s. clear.
    induction moments as [| [call | call created] moments IH];
      intros s creating; cbn [initialize_over].
    + reflexivity.
    + apply IH.
    + destruct (existsb _ creating); rewrite IH; reflexivity.
Qed.

Lemma initialize_overlap_witness :
  gestureRecognizer
    (snd (initialize_over
            [Called 1; Called 2; Resolved 1 DemoApp.recognizer;
             Resolved 2 DemoApp.deep_recognizer] [] VisionService.initial))
  = Some DemoApp.deep_recognizer.
Proof.
  exact (proj1 (proj2 (proj2 (proj2
           (initialize_overlap DemoApp.recognizer DemoApp.deep_recognizer
              VisionService.initial eq_refl))))).
Defined.

(** X13: the timestamp the wrapper starts from, -1, is never a video
    timestamp: the first poll after loading runs the recognizer on the frame
    on display, whatever its (non-negative) timestamp, and returns what the
    recognizer returns. *)
Theorem detect_first_frame w rec video :
  0 <= currentTime video ->
  detect w (initialize rec VisionService.initial) video
  = (emit (RecognizeForVideo (currentTime video) (now w)) w,
     {| gestureRecognizer := Some rec; lastVideoTime := currentTime video |},
     Some (recognizeForVideo rec video (now w))).
Proof.
  intros Hpos. apply detect_new_frame; [reflexivity |]. cbn. lra.
Qed.

Lemma detect_first_frame_witness :
  snd (detect Demo.world
         (initialize DemoApp.recognizer VisionService.initial)
         (DemoApp.frame_at 0))
  = Some DemoApp.pinch.
Proof.
  rewrite (detect_first_frame Demo.world DemoApp.recognizer (DemoApp.frame_at 0)).
  - reflexivity.
  - change (0 <= 0). lra.
Defined.

End DetectorFacts.

(** ** The mapper loop, case by case *)

Module LoopFacts.

Import Constants Host VisionService App Observed Lifecycle AppLifecycle JsFacts
       VisionFacts MapperLoopFacts.

(** The gesture branch in full: the state it leaves and the calls it adds. *)
Lemma gesture_logic_full cfg w a sc results thumbTip indexTip :
  sceneControllerRef a = Some sc ->
  let c := classified cfg results thumbTip indexTip in
  let r := gesture_logic cfg w a sc results thumbTip indexTip in
  debugText (snd r) = status_of c /\
  particleStateRef (snd r)
  = match c with Some target => target | None => particleStateRef a end /\
  (particleState a = particleStateRef a ->
   particleState (snd r) = particleStateRef (snd r)) /\
  (appState (snd r), videoRef (snd r), canvasRef (snd r),
   sceneControllerRef (snd r), requestRef (snd r), visionService (snd r))
  = (appState a, videoRef a, canvasRef a,
     sceneControllerRef a, requestRef a, visionService a) /\
  effects (fst r) = effects w ++ transition_effects cfg a results thumbTip indexTip /\
  lastHandle (fst r) = lastHandle w.
Proof.
  intros Hsc. unfold transition_effects, gesture_logic, classified.
  destruct (Js.lt _ _); [| destruct (_ || _)].
  all: destruct (particleStateRef a) eqn:Href.
  all: cbn; rewrite ?Href, ?Hsc, ?app_nil_r, <- ?app_assoc; cbn; auto 10.
Qed.

Lemma detect_handles w s video :
  lastHandle (fst (fst (detect w s video))) = lastHandle w /\
  exists added, effects (fst (fst (detect w s video))) = effects w ++ added /\
                factor_tweens added = [] /\ bloom_tweens added = [] /\
                position_tweens added = [].
Proof.
  unfold detect. destruct (gestureRecognizer s).
  - destruct (Js.strict_ne _ _); cbn; split; auto.
    + eexists. split; [reflexivity |]. cbn. auto.
    + exists []. rewrite app_nil_r. auto.
  - cbn. split; auto. exists []. rewrite app_nil_r. auto.
Qed.

Lemma updateHandPosition_handles w sc px py :
  lastHandle (fst (SceneController.updateHandPosition w sc px py)) = lastHandle w /\
  snd (SceneController.updateHandPosition w sc px py) = sc /\
  effects (fst (SceneController.updateHandPosition w sc px py))
  = effects w
    ++ match SceneController.particles sc with
       | Some _ => [Derived.position_tween
                      (Derived.mapped_point (SceneController.camera sc) px py)]
       | None => []
       end.
Proof.
  unfold SceneController.updateHandPosition.
  destruct (SceneController.particles sc); cbn; rewrite ?app_nil_r; auto.
Qed.

Lemma lookup_below (hand : list NormalizedLandmark) k j :
  (j <= k)%nat -> is_Some (hand !! k) -> is_Some (hand !! j).
Proof.
  intros Hle Hk. apply lookup_lt_is_Some. apply lookup_lt_is_Some in Hk. lia.
Qed.

(** The four ways a call of [predictWebcam] can go. *)
Lemma predictWebcam_cases cfg w a :
  ((videoRef a = None \/ sceneControllerRef a = None) /\
   predictWebcam cfg w a = Returned w a) \/
  exists video sc,
    videoRef a = Some video /\ sceneControllerRef a = Some sc /\
    let w1 := fst (fst (detect w (visionService a) video)) in
    let a1 := set_visionService a (snd (fst (detect w (visionService a) video))) in
    ((match snd (detect w (visionService a) video) with
      | None => True
      | Some results => landmarks results = []
      end /\
      predictWebcam cfg w a = schedule w1 (setDebugText a1 "No Hand Detected")) \/
     (exists results hand others,
        snd (detect w (visionService a) video) = Some results /\
        landmarks results = hand :: others /\
        (Datatypes.length hand <= 9)%nat /\
        predictWebcam cfg w a = Threw w1 a1) \/
     (exists results hand others center thumbTip indexTip,
        snd (detect w (visionService a) video) = Some results /\
        landmarks results = hand :: others /\
        hand !! 9%nat = Some center /\
        hand !! 4%nat = Some thumbTip /\
        hand !! 8%nat = Some indexTip /\
        predictWebcam cfg w a
        = let w2 := fst (SceneController.updateHandPosition w1 sc
                           (x center) (y center)) in
          let r := gesture_logic cfg w2 (set_sceneController a1 sc) sc
                     results thumbTip indexTip in
          schedule (fst r) (snd r))).
Proof.
  unfold predictWebcam.
  destruct (videoRef a) as [video |] eqn:Hv; [| left; auto].
  destruct (sceneControllerRef a) as [sc |] eqn:Hs; [| left; auto].
  right. exists video, sc. split; [reflexivity |]. split; [reflexivity |].
  destruct (detect w (visionService a) video) as [[w1 vs] r]. cbn [fst snd].
  destruct r as [[[| hand others] gs] |].
  - left. split; reflexivity.
  - destruct (hand !! 9%nat) as [center |] eqn:H9.
    + right. right.
      destruct (lookup_below hand 9 4 ltac:(lia) (mk_is_Some _ _ H9))
        as [thumbTip H4].
      destruct (lookup_below hand 9 8 ltac:(lia) (mk_is_Some _ _ H9))
        as [indexTip H8].
      exists {| landmarks := hand :: others; gestures := gs |}, hand, others,
        center, thumbTip, indexTip.
      repeat (split; [reflexivity || assumption |]).
      destruct (updateHandPosition_handles w1 sc (x center) (y center))
        as (_ & Hsc & _).
      destruct (SceneController.updateHandPosition w1 sc (x center) (y center))
        as [w2 sc2]. cbn [fst snd] in *. subst sc2.
      rewrite H4, H8. destruct (gesture_logic _ _ _ _ _ _ _). reflexivity.
    + right. left.
      exists {| landmarks := hand :: others; gestures := gs |}, hand, others.
      repeat (split; [reflexivity |]).
      split; [| reflexivity].
      apply lookup_ge_None in H9. lia.
  - left. split; reflexivity.
Qed.

Lemma factor_tweens_app es1 es2 :
  factor_tweens (es1 ++ es2) = factor_tweens es1 ++ factor_tweens es2.
Proof.
  induction es1 as [| e es1 IH]; [reflexivity |].
  destruct e as [| | | | | | | | [] vars | | | | |]; cbn; rewrite ?IH;
    reflexivity.
Qed.

Lemma bloom_tweens_app es1 es2 :
  bloom_tweens (es1 ++ es2) = bloom_tweens es1 ++ bloom_tweens es2.
Proof.
  induction es1 as [| e es1 IH]; [reflexivity |].
  destruct e as [| | | | | | | | [] vars | | | | |]; cbn; rewrite ?IH;
    reflexivity.
Qed.

Lemma position_tweens_app es1 es2 :
  position_tweens (es1 ++ es2) = position_tweens es1 ++ position_tweens es2.
Proof.
  induction es1 as [| e es1 IH]; [reflexivity |].
  destruct e as [| | | | | | | | [] vars | | | | |]; cbn; rewrite ?IH;
    reflexivity.
Qed.

Lemma gesture_logic_status cfg w a sc results thumbTip indexTip :
  debugText (snd (gesture_logic cfg w a sc results thumbTip indexTip))
  = status_of (classified cfg results thumbTip indexTip).
Proof.
  unfold gesture_logic, classified.
  destruct (Js.lt _ _); [| destruct (_ || _)].
  all: destruct (particleStateRef a); reflexivity.
Qed.

(** The two tweens of a transition run in lockstep, and a transition moves
    nothing. *)
Lemma transition_lockstep cfg a results thumbTip indexTip :
  Forall2 lockstep
    (factor_tweens (transition_effects cfg a results thumbTip indexTip))
    (bloom_tweens (transition_effects cfg a results thumbTip indexTip)) /\
  position_tweens (transition_effects cfg a results thumbTip indexTip) = [].
Proof.
  unfold transition_effects.
  destruct (classified cfg results thumbTip indexTip) as [[] |];
    [destruct (ParticleState_eqb _ _) .. |]; cbn; split; auto;
    repeat constructor; cbn.
  - exists 0. split; [reflexivity |]. replace (0 + 1) with 1 by lra. reflexivity.
  - exists 1. split; [reflexivity |]. replace (1 + 1) with 2 by lra. reflexivity.
Qed.

Lemma schedule_full w a :
  schedule w a
  = Returned
      {| innerWidth := innerWidth w; innerHeight := innerHeight w; now := now w;
         lastHandle := S (lastHandle w); random := random w;
         randomCalls := randomCalls w;
         effects := effects w
                    ++ [RequestAnimationFrame PredictWebcamCallback
                          (S (lastHandle w))] |}
      (set_requestRef a (Some (S (lastHandle w)))).
Proof. reflexivity. Qed.

(** What every call of [predictWebcam] keeps, whatever it sees. *)
Lemma predictWebcam_summary cfg w a :
  let o := predictWebcam cfg w a in
  (appState (app_of o), canvasRef (app_of o), videoRef (app_of o),
   sceneControllerRef (app_of o))
  = (appState a, canvasRef a, videoRef a, sceneControllerRef a) /\
  (particleState a = particleStateRef a ->
   particleState (app_of o) = particleStateRef (app_of o)) /\
  exists added,
    effects (world_of o) = effects w ++ added /\
    Forall2 lockstep (factor_tweens added) (bloom_tweens added).
Proof.
  destruct (predictWebcam_cases cfg w a)
    as [[_ ->] | (video & sc & Hv & Hs & Hcase)].
  { cbn. repeat split; auto. exists []. rewrite app_nil_r. split; constructor. }
  cbv zeta in Hcase.
  destruct (detect_handles w (visionService a) video)
    as (Hdh & dadd & Hde & Hdf & Hdb & Hdp).
  destruct Hcase as [[_ ->] | [(results & hand & others & _ & _ & _ & ->)
                              | (results & hand & others & center & thumbTip
                                 & indexTip & _ & _ & _ & _ & _ & ->)]].
  - rewrite schedule_full. cbn. repeat split; auto.
    exists (dadd ++ [RequestAnimationFrame PredictWebcamCallback
                       (S (lastHandle (fst (fst (detect w (visionService a) video)))))]).
    rewrite Hde, <- app_assoc. split; [reflexivity |].
    rewrite factor_tweens_app, bloom_tweens_app, Hdf, Hdb. cbn. constructor.
  - cbn. repeat split; auto. exists dadd. rewrite Hdf, Hdb.
    split; [exact Hde | constructor].
  - cbv zeta.
    destruct (updateHandPosition_handles
                (fst (fst (detect w (visionService a) video))) sc
                (x center) (y center)) as (Huh & _ & Hue).
    set (w2 := fst (SceneController.updateHandPosition _ sc _ _)) in *.
    set (a2 := set_sceneController (set_visionService a _) sc).
    destruct (gesture_logic_full cfg w2 a2 sc results thumbTip indexTip eq_refl)
      as (_ & _ & Hmirror & Hkeep & Hge & _).
    destruct (transition_lockstep cfg a2 results thumbTip indexTip) as [Hlock _].
    rewrite schedule_full. cbn [app_of world_of effects].
    injection Hkeep as Ka Kv Kc Ks _ _.
    cbn [appState canvasRef videoRef sceneControllerRef set_requestRef
         particleState particleStateRef].
    rewrite Ka, Kv, Kc, Ks. subst a2. cbn [appState canvasRef videoRef
      sceneControllerRef set_sceneController set_visionService].
    split; [rewrite Hs; reflexivity |].
    split; [intros Hm; apply Hmirror; exact Hm |].
    eexists. rewrite Hge, Hue, Hde, <- !app_assoc. split; [reflexivity |].
    rewrite !factor_tweens_app, !bloom_tweens_app, Hdf, Hdb.
    assert (Hpos : forall o : option SceneController.Points,
              factor_tweens
                (match o with
                 | Some _ => [Derived.position_tween
                                (Derived.mapped_point (SceneController.camera sc)
                                   (x center) (y center))]
                 | None => []
                 end) = [] /\
              bloom_tweens
                (match o with
                 | Some _ => [Derived.position_tween
                                (Derived.mapped_point (SceneController.camera sc)
                                   (x center) (y center))]
                 | None => []
                 end) = []) by (intros [|]; auto).
    destruct (Hpos (SceneController.particles sc)) as [-> ->].
    cbn. rewrite !app_nil_r. exact Hlock.
Qed.

End LoopFacts.

(** ** The session: one call, many calls, start and unmount *)

Module SessionFacts.

Import Constants Host VisionService App Observed Lifecycle AppLifecycle JsFacts
       VisionFacts MapperLoopFacts DepthFacts TeardownFacts LoopFacts.

(** X14: when the detector returns null or a result without landmarks,
    [predictWebcam] reports "No Hand Detected", leaves the particle state and
    the controller alone, requests nothing from gsap, and schedules the next
    frame, whose handle it stores. *)
Theorem predictWebcam_no_hand cfg w a video sc :
  videoRef a = Some video ->
  sceneControllerRef a = Some sc ->
  match snd (detect w (visionService a) video) with
  | None => True
  | Some results => landmarks results = []
  end ->
  let o := predictWebcam cfg w a in
  let w1 := fst (fst (detect w (visionService a) video)) in
  returned o = true /\
  debugText (app_of o) = "No Hand Detected"%string /\
  particleStateRef (app_of o) = particleStateRef a /\
  particleState (app_of o) = particleState a /\
  sceneControllerRef (app_of o) = Some sc /\
  requestRef (app_of o) = Some (S (lastHandle w)) /\
  effects (world_of o)
  = effects w1
    ++ [RequestAnimationFrame PredictWebcamCallback (S (lastHandle w))].
Proof.
  intros Hv Hs Hno o w1. subst o w1.
  destruct (detect_handles w (visionService a) video) as (Hdh & _).
  destruct (predictWebcam_cases cfg w a)
    as [[[H | H] _] | (video' & sc' & Hv' & Hs' & Hcase)]; try congruence.
  rewrite Hv in Hv'. rewrite Hs in Hs'. injection Hv' as <-. injection Hs' as <-.
  cbv zeta in Hcase.
  destruct Hcase as [[_ ->] | [(results & hand & others & Hr & Hl & _)
                              | (results & hand & others & center & thumbTip
                                 & indexTip & Hr & Hl & _)]].
  - rewrite schedule_full. cbn. rewrite Hdh. repeat split; auto.
  - rewrite Hr in Hno. congruence.
  - rewrite Hr in Hno. congruence.
Qed.

Lemma predictWebcam_no_hand_witness :
  debugText (app_of (predictWebcam shipped Demo.world
                       (set_video DemoApp.running (DemoApp.frame_at (-1)))))
  = "No Hand Detected"%string.
Proof.
  refine (proj1 (proj2
            (predictWebcam_no_hand shipped Demo.world
               (set_video DemoApp.running (DemoApp.frame_at (-1)))
               (DemoApp.frame_at (-1)) Demo.halfway eq_refl eq_refl _))).
  cbn [visionService set_video DemoApp.running].
  rewrite (detect_same_frame Demo.world DemoApp.service (DemoApp.frame_at (-1)))
    by reflexivity.
  exact I.
Defined.

(** X15: without a scene controller the loop is inert: over any sequence of
    frames [predictWebcam] never polls the detector, never schedules a frame
    and calls nothing on the host. *)
Theorem play_without_controller cfg videos : forall w a,
  sceneControllerRef a = None ->
  fst (play cfg w a videos) = w /\
  visionService (snd (play cfg w a videos)) = visionService a /\
  requestRef (snd (play cfg w a videos)) = requestRef a /\
  particleStateRef (snd (play cfg w a videos)) = particleStateRef a.
Proof.
  induction videos as [| video videos IH]; intros w a Hsc; [cbn; auto |].
  cbn [play]. unfold predictWebcam.
  cbn [videoRef sceneControllerRef set_video]. rewrite Hsc.
  destruct (IH w (set_video a video) Hsc) as (Hw & Hvs & Hreq & Href).
  auto.
Qed.

Lemma play_without_controller_witness :
  fst (play shipped Demo.world App.initial
         [DemoApp.frame_at 0; DemoApp.frame_at 1])
  = Demo.world.
Proof.
  apply (play_without_controller shipped _ Demo.world App.initial). reflexivity.
Defined.

(** X16: given a hand, [predictWebcam] returns exactly when the hand has a
    landmark of index 9, that is at least ten landmarks.  With fewer, reading
    [landmarks[9].x] throws right after the detector call: the timestamp is
    already remembered, but no position update is made, the particle state is
    untouched and no further frame is scheduled. *)
Theorem predictWebcam_short_hand cfg w a video sc results hand others :
  videoRef a = Some video ->
  sceneControllerRef a = Some sc ->
  snd (detect w (visionService a) video) = Some results ->
  landmarks results = hand :: others ->
  let o := predictWebcam cfg w a in
  (returned o = true <-> (9 < Datatypes.length hand)%nat) /\
  ((Datatypes.length hand <= 9)%nat ->
   o = Threw (fst (fst (detect w (visionService a) video)))
             (set_visionService a (snd (fst (detect w (visionService a) video))))).
Proof.
  intros Hv Hs Hr Hl o. subst o.
  destruct (predictWebcam_cases cfg w a)
    as [[[H | H] _] | (video' & sc' & Hv' & Hs' & Hcase)]; try congruence.
  rewrite Hv in Hv'. rewrite Hs in Hs'. injection Hv' as <-. injection Hs' as <-.
  cbv zeta in Hcase.
  destruct Hcase as [[Hno _] | [(results' & hand' & others' & Hr' & Hl' & Hlen & ->)
                                | (results' & hand' & others' & center & thumbTip
                                   & indexTip & Hr' & Hl' & H9 & _ & _ & ->)]].
  - rewrite Hr in Hno. congruence.
  - rewrite Hr in Hr'. injection Hr' as <-. rewrite Hl in Hl'.
    injection Hl' as <- <-. cbn [returned]. split; [| auto].
    split; [discriminate | lia].
  - rewrite Hr in Hr'. injection Hr' as <-. rewrite Hl in Hl'.
    injection Hl' as <- <-. apply lookup_lt_Some in H9.
    cbv zeta. rewrite schedule_full. cbn [returned].
    split; [split; auto | intros; lia].
Qed.

Lemma predictWebcam_short_hand_witness :
  returned (predictWebcam shipped Demo.world DemoApp.running) = true.
Proof.
  refine (proj2 (proj1
            (predictWebcam_short_hand shipped Demo.world DemoApp.running
               (DemoApp.frame_at 0) Demo.halfway DemoApp.pinch
               (DemoApp.hand_of (DemoApp.landmark 0.5 0.5 0)
                                (DemoApp.landmark 0.53 0.5 0))
               [] eq_refl eq_refl _ eq_refl)) _).
  - change (visionService DemoApp.running) with DemoApp.service.
    rewrite (detect_new_frame Demo.world DemoApp.service DemoApp.recognizer)
      by (try reflexivity; cbn; lra).
    reflexivity.
  - cbn. lia.
Defined.

(** What the loop keeps over any sequence of frames. *)
Lemma play_summary cfg videos : forall w a,
  (appState (snd (play cfg w a videos)), canvasRef (snd (play cfg w a videos)),
   sceneControllerRef (snd (play cfg w a videos)))
  = (appState a, canvasRef a, sceneControllerRef a) /\
  (particleState a = particleStateRef a ->
   particleState (snd (play cfg w a videos))
   = particleStateRef (snd (play cfg w a videos))) /\
  exists added,
    effects (fst (play cfg w a videos)) = effects w ++ added /\
    Forall2 lockstep (factor_tweens added) (bloom_tweens added).
Proof.
  induction videos as [| video videos IH]; intros w a.
  - cbn. repeat split; auto. exists []. rewrite app_nil_r. split; constructor.
  - cbn [play].
    destruct (predictWebcam_summary cfg w (set_video a video))
      as (Hkeep & Hmirror & added1 & He1 & Hl1).
    cbn [appState canvasRef sceneControllerRef particleState particleStateRef
         set_video] in Hkeep, Hmirror.
    injection Hkeep as Ka Kc _ Ks.
    destruct (predictWebcam cfg w (set_video a video)) as [w1 a1 | w1 a1];
      cbn [app_of world_of] in *.
    + destruct (IH w1 a1) as (Hkeep2 & Hmirror2 & added2 & He2 & Hl2).
      injection Hkeep2 as Ka2 Kc2 Ks2.
      split; [congruence |]. split; [auto |].
      exists (added1 ++ added2).
      rewrite He2, He1, <- app_assoc. split; [reflexivity |].
      rewrite factor_tweens_app, bloom_tweens_app. apply Forall2_app; assumption.
    + cbn [fst snd]. split; [congruence |]. split; [auto |].
      exists added1. auto.
Qed.

(** X18: the React state and the ref that mirrors it never part: if
    [particleState] equals [particleStateRef] before the loop runs, it does
    after any sequence of frames. *)
Theorem play_state_mirrors_ref cfg videos w a :
  particleState a = particleStateRef a ->
  particleState (snd (play cfg w a videos))
  = particleStateRef (snd (play cfg w a videos)).
Proof. intros H. apply (play_summary cfg videos w a), H. Qed.

Lemma play_state_mirrors_ref_witness :
  particleState (snd (play shipped Demo.world DemoApp.running
                        [DemoApp.frame_at 1; DemoApp.frame_at 2]))
  = particleStateRef (snd (play shipped Demo.world DemoApp.running
                             [DemoApp.frame_at 1; DemoApp.frame_at 2])).
Proof.
  apply (play_state_mirrors_ref shipped _ Demo.world DemoApp.running).
  reflexivity.
Defined.

(** X19: the loop acts on the scene only through calls: over any sequence of
    frames [predictWebcam] leaves the controller held by [sceneControllerRef]
    exactly as it was (arrays, factor, camera, frame handle), and never
    changes [appState]. *)
Theorem play_keeps_controller cfg videos w a :
  sceneControllerRef (snd (play cfg w a videos)) = sceneControllerRef a /\
  appState (snd (play cfg w a videos)) = appState a /\
  canvasRef (snd (play cfg w a videos)) = canvasRef a.
Proof.
  destruct (play_summary cfg videos w a) as (Hkeep & _).
  injection Hkeep as Ka Kc Ks. auto.
Qed.

(** X20: over any sequence of frames, every tween requested for the
    explosion factor comes with a tween for the bloom pass of the same
    duration and easing, aimed at a strength one above the factor; the two
    lists stay in step. *)
Theorem play_bloom_lockstep cfg videos w a :
  exists added,
    effects (fst (play cfg w a videos)) = effects w ++ added /\
    Forall2 lockstep (factor_tweens added) (bloom_tweens added).
Proof. apply (play_summary cfg videos w a). Qed.

Lemma play_not_loaded_gen cfg videos : forall w a sc,
  gestureRecognizer (visionService a) = None ->
  sceneControllerRef a = Some sc ->
  let r := play cfg w a videos in
  particleStateRef (snd r) = particleStateRef a /\
  (videos <> [] \/ debugText a = "No Hand Detected"%string ->
   debugText (snd r) = "No Hand Detected"%string) /\
  exists added,
    effects (fst r) = effects w ++ added /\
    forallb quiet added = true /\
    Datatypes.length added = Datatypes.length videos.
Proof.
  induction videos as [| video videos IH]; intros w a sc Hrec Hsc.
  - cbn. split; [reflexivity |]. split.
    + intros [H | H]; [contradiction | exact H].
    + exists []. rewrite app_nil_r. auto.
  - cbn [play]. unfold predictWebcam, detect.
    cbn [videoRef sceneControllerRef visionService set_video].
    rewrite Hsc, Hrec. rewrite schedule_full.
    match goal with
    | |- context [play cfg ?w1 ?a1 videos] =>
        destruct (IH w1 a1 sc Hrec Hsc) as (Href & Htext & added & He & Hq & Hlen)
    end.
    cbv zeta. split; [exact Href |]. split.
    + intros _. apply Htext. right. reflexivity.
    + eexists. rewrite He. cbn [effects]. rewrite <- app_assoc.
      split; [reflexivity |]. cbn. rewrite Hq, Hlen. auto.
Qed.

(** X21: if the recognizer never loaded, the loop still runs but sees
    nothing: over any non-empty sequence of frames the status ends as
    "No Hand Detected", the particle state is unchanged, and the only calls
    made are the frame requests, one per frame: no recognizer call and no
    tween. *)
Theorem play_not_loaded cfg videos w a sc :
  gestureRecognizer (visionService a) = None ->
  sceneControllerRef a = Some sc ->
  videos <> [] ->
  let r := play cfg w a videos in
  debugText (snd r) = "No Hand Detected"%string /\
  particleStateRef (snd r) = particleStateRef a /\
  exists added,
    effects (fst r) = effects w ++ added /\
    forallb quiet added = true /\
    Datatypes.length added = Datatypes.length videos.
Proof.
  intros Hrec Hsc Hne r. subst r.
  destruct (play_not_loaded_gen cfg videos w a sc Hrec Hsc)
    as (Href & Htext & Hadded).
  split; [apply Htext; left; exact Hne |]. split; assumption.
Qed.

Lemma play_not_loaded_witness :
  debugText (snd (play shipped Demo.world
                    (set_visionService DemoApp.running VisionService.initial)
                    [DemoApp.frame_at 0; DemoApp.frame_at 1]))
  = "No Hand Detected"%string.
Proof.
  refine (proj1 (play_not_loaded shipped [DemoApp.frame_at 0; DemoApp.frame_at 1]
                   Demo.world
                   (set_visionService DemoApp.running VisionService.initial)
                   Demo.halfway eq_refl eq_refl _)).
  discriminate.
Defined.

(** X22: whenever a hand is in view and the cloud exists, exactly one position
    tween is requested in that call, aimed at the point the spatial mapper
    gives for the (x, y) of landmark 9, for 0.2 s with [overwrite]; this does
    not depend on how the gesture is classified. *)
Theorem predictWebcam_forwards_position cfg w a video sc p results hand others
    center :
  videoRef a = Some video ->
  sceneControllerRef a = Some sc ->
  SceneController.particles sc = Some p ->
  snd (detect w (visionService a) video) = Some results ->
  landmarks results = hand :: others ->
  hand !! 9%nat = Some center ->
  let target := Derived.mapped_point (SceneController.camera sc)
                  (x center) (y center) in
  position_tweens (effects (world_of (predictWebcam cfg w a)))
  = position_tweens (effects w)
    ++ [{| props := [("x"%string, Three.vx target); ("y"%string, Three.vy target);
                     ("z"%string, Three.vz target)];
           duration := 0.2; ease := None; overwrite := true |}].
Proof.
  intros Hv Hs Hp Hr Hl H9 target. subst target.
  destruct (detect_handles w (visionService a) video)
    as (_ & dadd & Hde & _ & _ & Hdp).
  destruct (predictWebcam_cases cfg w a)
    as [[[H | H] _] | (video' & sc' & Hv' & Hs' & Hcase)]; try congruence.
  rewrite Hv in Hv'. rewrite Hs in Hs'. injection Hv' as <-. injection Hs' as <-.
  cbv zeta in Hcase.
  destruct Hcase as [[Hno _] | [(results' & hand' & others' & Hr' & Hl' & Hlen & _)
                                | (results' & hand' & others' & center' & thumbTip
                                   & indexTip & Hr' & Hl' & H9' & _ & _ & ->)]].
  - rewrite Hr in Hno. congruence.
  - rewrite Hr in Hr'. injection Hr' as <-. rewrite Hl in Hl'.
    injection Hl' as <- <-. apply lookup_lt_Some in H9. lia.
  - rewrite Hr in Hr'. injection Hr' as <-. rewrite Hl in Hl'.
    injection Hl' as <- <-. rewrite H9 in H9'. injection H9' as <-.
    cbv zeta.
    destruct (updateHandPosition_handles
                (fst (fst (detect w (visionService a) video))) sc
                (x center) (y center)) as (_ & _ & Hue).
    rewrite Hp in Hue.
    set (w2 := fst (SceneController.updateHandPosition _ sc _ _)) in *.
    set (a2 := set_sceneController (set_visionService a _) sc).
    destruct (gesture_logic_full cfg w2 a2 sc results thumbTip indexTip eq_refl)
      as (_ & _ & _ & _ & Hge & _).
    destruct (transition_lockstep cfg a2 results thumbTip indexTip) as [_ Hnone].
    rewrite schedule_full. cbn [world_of effects].
    rewrite Hge, Hue, Hde, !position_tweens_app, Hdp, Hnone. cbn.
    rewrite !app_nil_r. reflexivity.
Qed.

Lemma predictWebcam_forwards_position_witness :
  Datatypes.length
    (position_tweens
       (effects (world_of (predictWebcam shipped Demo.world DemoApp.running))))
  = 1%nat.
Proof.
  rewrite (predictWebcam_forwards_position shipped Demo.world DemoApp.running
             (DemoApp.frame_at 0) Demo.halfway Demo.cloud DemoApp.pinch
             (DemoApp.hand_of (DemoApp.landmark 0.5 0.5 0)
                              (DemoApp.landmark 0.53 0.5 0))
             [] (DemoApp.landmark 0.5 0.5 0) eq_refl eq_refl eq_refl).
  - reflexivity.
  - change (visionService DemoApp.running) with DemoApp.service.
    rewrite (detect_new_frame Demo.world DemoApp.service DemoApp.recognizer)
      by (try reflexivity; cbn; lra).
    reflexivity.
  - reflexivity.
  - reflexivity.
Defined.

(** X24: after a call of [predictWebcam] that returned, [requestRef] holds
    the handle of the frame it scheduled, so unmounting then cancels exactly
    that frame before the controller releases what it holds. *)
Theorem unmount_after_call cfg w a video sc :
  videoRef a = Some video ->
  sceneControllerRef a = Some sc ->
  let o := predictWebcam cfg w a in
  returned o = true ->
  requestRef (app_of o) = Some (S (lastHandle w)) /\
  lastHandle (world_of o) = S (lastHandle w) /\
  effects (fst (unmount (world_of o) (app_of o)))
  = effects (world_of o)
    ++ CancelAnimationFrame (S (lastHandle w)) :: release_calls sc.
Proof.
  intros Hv Hs o Hret.
  assert (H : requestRef (app_of o) = Some (S (lastHandle w)) /\
              lastHandle (world_of o) = S (lastHandle w) /\
              sceneControllerRef (app_of o) = Some sc).
  { subst o.
    destruct (detect_handles w (visionService a) video) as (Hdh & _).
    destruct (predictWebcam_cases cfg w a)
      as [[[H | H] _] | (video' & sc' & Hv' & Hs' & Hcase)]; try congruence.
    rewrite Hv in Hv'. rewrite Hs in Hs'.
    injection Hv' as <-. injection Hs' as <-. cbv zeta in Hcase.
    destruct Hcase as [[_ Heq] | [(results & hand & others & _ & _ & _ & Heq)
                                  | (results & hand & others & center & thumbTip
                                     & indexTip & _ & _ & _ & _ & _ & Heq)]];
      rewrite Heq in Hret |- *.
    - rewrite schedule_full. cbn. rewrite Hdh. auto.
    - discriminate.
    - cbv zeta.
      destruct (updateHandPosition_handles
                  (fst (fst (detect w (visionService a) video))) sc
                  (x center) (y center)) as (Huh & _ & _).
      set (w2 := fst (SceneController.updateHandPosition _ sc _ _)) in *.
      set (a2 := set_sceneController (set_visionService a _) sc).
      destruct (gesture_logic_full cfg w2 a2 sc results thumbTip indexTip
                  eq_refl) as (_ & _ & _ & Hkeep & _ & Hgh).
      injection Hkeep as _ _ _ Ks _ _.
      rewrite schedule_full. cbn. rewrite Hgh, Huh, Hdh, Ks. auto. }
  destruct H as (Hreq & Hlast & Hsc').
  split; [exact Hreq |]. split; [exact Hlast |].
  unfold unmount. rewrite Hreq, Hsc'. cbn [Js.truthy default].
  destruct (cleanup_effects (emit (CancelAnimationFrame (S (lastHandle w)))
                               (world_of o)) sc) as [He _].
  destruct (SceneController.cleanup _ sc) as [w3 sc3]. cbn [fst] in *.
  rewrite He, effects_emit, <- app_assoc. reflexivity.
Qed.

Lemma unmount_after_call_witness :
  requestRef (app_of (predictWebcam shipped Demo.world DemoApp.running))
  = Some 1%nat.
Proof.
  refine (proj1 (unmount_after_call shipped Demo.world DemoApp.running
                   (DemoApp.frame_at 0) Demo.halfway eq_refl eq_refl _)).
  assert (Hhand : hand_present Demo.world DemoApp.running DemoApp.pinch
                    (DemoApp.landmark 0.5 0.5 0) (DemoApp.landmark 0.53 0.5 0)).
  { apply (demo_hand_present _ _ (-1) 0 Demo.halfway); try reflexivity. lra. }
  exact (proj1 (predictWebcam_step shipped Demo.world DemoApp.running
                  DemoApp.pinch _ _ Hhand)).
Defined.

End SessionFacts.

(** ** Mount, start, and what of a result is read *)

Module StartFacts.

Import Constants Host VisionService App Observed Lifecycle AppLifecycle JsFacts
       VisionFacts MapperLoopFacts DepthFacts ConstructorFacts LoopFacts.

(** X23: [handleStart] builds the scene controller exactly when the canvas is
    mounted, before it asks for the camera, and asks for the camera in every
    case.  If access is denied it logs the error and the state becomes ERROR,
    with the controller built and its first frame pending; if it is granted
    the state is RUNNING and, when the video element is mounted, the stream
    is attached to it and the [loadeddata] listener is added.  The particle
    state and the detector wrapper are not touched. *)
Theorem handleStart_outcomes cfg w a stream :
  let r := handleStart cfg w a stream in
  appState (snd r) = match stream with Some _ => RUNNING | None => ERROR end /\
  (videoRef (snd r), particleStateRef (snd r), visionService (snd r))
  = (videoRef a, particleStateRef a, visionService a) /\
  (if canvasRef a
   then sceneControllerRef (snd r) = Some (snd (SceneController.new cfg w)) /\
        SceneController.frameId (snd (SceneController.new cfg w))
        = Some (S (lastHandle w))
   else sceneControllerRef (snd r) = sceneControllerRef a) /\
  effects (fst r)
  = effects (if canvasRef a then fst (SceneController.new cfg w) else w)
    ++ GetUserMedia
       :: match stream with
          | Some media =>
              match videoRef a with
              | Some _ =>
                  [VideoSetSrcObject media; VideoAddEventListener "loadeddata"]
              | None => []
              end
          | None => [ConsoleError "Camera access denied"]
          end.
Proof.
  intros r. subst r. unfold handleStart.
  cbn [canvasRef setAppState].
  pose proof (new_frameId cfg w) as Hid.
  destruct (canvasRef a).
  - destruct (SceneController.new cfg w) as [w1 sc]. cbn [snd fst] in *.
    destruct stream; [destruct (videoRef a) eqn:Hv |]; cbn; rewrite ?Hv;
      repeat apply conj; cbn; rewrite ?Hv, <- ?app_assoc; auto.
  - destruct stream; [destruct (videoRef a) eqn:Hv |]; cbn; rewrite ?Hv;
      repeat apply conj; cbn; rewrite ?Hv, <- ?app_assoc; auto.
Qed.

(** X26: the mount effect leaves LOADING for good: READY_TO_START exactly
    when a recognizer is loaded afterwards (it was loaded already, or its
    creation succeeded) and ERROR exactly when none is; a recognizer loaded
    before is kept, and the timestamp remembered by the wrapper is not
    touched. *)
Theorem initializeEffect_outcomes created a :
  let a' := initializeEffect created a in
  (appState a' = READY_TO_START <-> gestureRecognizer (visionService a') <> None) /\
  (appState a' = ERROR <-> gestureRecognizer (visionService a') = None) /\
  (forall loaded, gestureRecognizer (visionService a) = Some loaded ->
     gestureRecognizer (visionService a') = Some loaded) /\
  lastVideoTime (visionService a') = lastVideoTime (visionService a).
Proof.
  unfold initializeEffect, initialize.
  destruct (gestureRecognizer (visionService a)) as [loaded |] eqn:Hrec;
    destruct created as [rec |]; cbn; rewrite ?Hrec; cbn.
  all: repeat split; auto; try discriminate; try congruence.
  all: intros H; exfalso; auto.
Qed.

(** X25: of a detector result [predictWebcam] reads the first hand only, and
    of it the (x, y) of the landmarks and the gesture categories: two
    recognizers whose results agree on that lead to the same host calls and
    the same application state, whatever further hands they report. *)
Theorem predictWebcam_first_hand_only cfg w a rec1 rec2 :
  (forall video time,
     first_hand (recognizeForVideo rec1 video time)
     = first_hand (recognizeForVideo rec2 video time)) ->
  let o1 := predictWebcam cfg w (with_recognizer a rec1) in
  let o2 := predictWebcam cfg w (with_recognizer a rec2) in
  returned o1 = returned o2 /\
  world_of o1 = world_of o2 /\
  visible (app_of o1) = visible (app_of o2).
Proof.
  intros Hsame o1 o2. subst o1 o2. unfold predictWebcam, with_recognizer.
  cbn [videoRef sceneControllerRef visionService set_visionService].
  destruct (videoRef a) as [video |] eqn:Hvideo; [| cbn; rewrite ?Hvideo; auto].
  destruct (sceneControllerRef a) as [sc |] eqn:Hsc; [| cbn; rewrite ?Hsc; auto].
  unfold detect. cbn [gestureRecognizer lastVideoTime].
  destruct (Js.strict_ne _ _).
  2:{ apply schedule_visible. unfold visible. cbn. reflexivity. }
  specialize (Hsame video (now w)). unfold first_hand in Hsame.
  injection Hsame as Hhead Hgs.
  destruct (recognizeForVideo rec1 video (now w)) as [lms1 gs1].
  destruct (recognizeForVideo rec2 video (now w)) as [lms2 gs2].
  cbn [landmarks] in Hhead.
  destruct lms1 as [| hand1 rest1], lms2 as [| hand2 rest2]; try discriminate.
  { apply schedule_visible. unfold visible. cbn. reflexivity. }
  injection Hhead as Hhand.
  pose proof (same_xy_lookup hand1 hand2 9 Hhand) as H9.
  pose proof (same_xy_lookup hand1 hand2 4 Hhand) as H4.
  pose proof (same_xy_lookup hand1 hand2 8 Hhand) as H8.
  destruct (hand1 !! 9%nat) as [c1 |], (hand2 !! 9%nat) as [c2 |];
    try contradiction.
  2:{ cbn. unfold visible. cbn. auto. }
  unfold xy in H9. injection H9 as -> ->.
  destruct (SceneController.updateHandPosition _ sc (x c2) (y c2)) as [w2 sc2].
  destruct (hand1 !! 4%nat) as [t1 |], (hand2 !! 4%nat) as [t2 |];
    try contradiction.
  2:{ cbn. unfold visible. cbn. auto. }
  destruct (hand1 !! 8%nat) as [i1 |], (hand2 !! 8%nat) as [i2 |];
    try contradiction.
  2:{ cbn. unfold visible. cbn. auto. }
  match goal with
  | |- context [gesture_logic cfg w2 ?a1 sc2 ?r1 t1 i1] =>
      match goal with
      | |- context [gesture_logic cfg w2 ?a2 sc2 ?r2 t2 i2] =>
          destruct (gesture_logic_visible cfg w2 a1 a2 sc2 r1 r2 t1 i1 t2 i2)
            as [Hw Hv];
          [reflexivity | apply pinch_distance_xy; assumption | exact Hgs |];
          destruct (gesture_logic cfg w2 a1 sc2 r1 t1 i1) as [w3 a3];
          destruct (gesture_logic cfg w2 a2 sc2 r2 t2 i2) as [w3' a3']
      end
  end.
  cbn [fst snd] in Hw, Hv. subst w3'. apply schedule_visible, Hv.
Qed.

Lemma predictWebcam_first_hand_only_witness :
  world_of (predictWebcam shipped Demo.world
              (with_recognizer DemoApp.running DemoApp.recognizer))
  = world_of (predictWebcam shipped Demo.world
                (with_recognizer DemoApp.running two_hands_recognizer)).
Proof.
  refine (proj1 (proj2
            (predictWebcam_first_hand_only shipped Demo.world DemoApp.running
               DemoApp.recognizer two_hands_recognizer _))).
  intros video time. reflexivity.
Defined.

End StartFacts.

(** ** What no method of the controller changes *)

Module ImmutableFacts.

Import Constants Three Host SceneController JsFacts Derived Lifecycle
       AnimateFacts ConstructorFacts.

Lemma invoke_keeps cfg m w s :
  let s' := snd (invoke cfg m w s) in
  spherePositions s' = spherePositions s /\
  explosionPositions s' = explosionPositions s /\
  explosionFactor s' = explosionFactor s /\
  position (camera s') = position (camera s) /\
  (sized cfg s -> sized cfg s') /\
  (is_Some (particles s) -> is_Some (particles s')).
Proof.
  destruct m; cbn [invoke].
  - destruct (animate_preserves_sources cfg w s) as (Hs & He & Hf).
    cbv zeta. rewrite Hs, He, Hf, animate_camera.
    split; [reflexivity |]. split; [reflexivity |]. split; [reflexivity |].
    split; [reflexivity |]. split; [apply animate_sized |].
    intros [p Hp]. rewrite (animate_particles cfg w s p Hp). eauto.
  - unfold updateHandPosition.
    destruct (particles s) eqn:Hp; cbn; rewrite ?Hp; repeat apply conj; auto.
  - cbn. repeat apply conj; auto.
  - cbn. repeat apply conj; auto.
  - cbn. repeat apply conj; auto.
  - cbn. repeat apply conj; auto.
Qed.

(** X28: after construction the two shapes and the factor are read-only for
    the controller: over any sequence of calls of its methods (frames, hand
    updates, triggers, resizes, cleanups) the assembled and exploded arrays
    and the explosion factor are never written, the arrays keep their size,
    the camera stays where it is and the cloud is never dropped. *)
Theorem methods_keep_shapes cfg ms : forall w s,
  let s' := snd (invoke_all cfg ms w s) in
  spherePositions s' = spherePositions s /\
  explosionPositions s' = explosionPositions s /\
  explosionFactor s' = explosionFactor s /\
  position (camera s') = position (camera s) /\
  (sized cfg s -> sized cfg s') /\
  (is_Some (particles s) -> is_Some (particles s')).
Proof.
  induction ms as [| m ms IH]; intros w s; [cbn; repeat apply conj; auto |].
  cbn [invoke_all].
  destruct (invoke_keeps cfg m w s) as (Hs & He & Hf & Hc & Hz & Hp).
  destruct (invoke cfg m w s) as [w1 s1]. cbn [snd] in *.
  destruct (IH w1 s1) as (Hs' & He' & Hf' & Hc' & Hz' & Hp').
  cbv zeta. rewrite Hs', He', Hf', Hc'. repeat apply conj; auto.
Qed.

End ImmutableFacts.

(** ** A steady gesture *)

Module SteadyFacts.

Import Constants Host VisionService App Observed Lifecycle AppLifecycle JsFacts
       VisionFacts MapperLoopFacts LoopFacts.


Lemma request_for_inj p q : request_for p = request_for q -> p = q.
Proof.
  destruct p, q; cbn; intros H; try reflexivity; exfalso;
    injection H as H; lra.
Qed.






End SteadyFacts.
